(** * jetstream: a publish/subscribe exchange and its stream transport

    A shallow embedding of [src/jetstream.py] and [src/iostream.py].
    Python objects that are mutated in place become explicit state; a call
    that may raise returns a [result] carrying the state as the exception
    left it. *)

From stdpp Require Import gmap strings list fin_maps.
From Stdlib Require Import ZArith Strings.Byte.

Local Open Scope Z_scope.

(** ** Python values and control flow *)

Module Py.

(** A Python 2 [str] is a sequence of bytes. *)
Abbreviation bytes := (list byte).

Definition b (s : string) : bytes := String.list_byte_of_string s.

Definition len {A} (l : list A) : Z := Z.of_nat (length l).

(** Slices [x[:i]] and [x[i:]]; a negative [i] counts from the end. *)
Definition slice_to {A} (i : Z) (x : list A) : list A :=
  if 0 <=? i then take (Z.to_nat i) x else take (Z.to_nat (len x + i)) x.

Definition slice_from {A} (i : Z) (x : list A) : list A :=
  if 0 <=? i then drop (Z.to_nat i) x else drop (Z.to_nat (len x + i)) x.

(** The exceptions the modelled code can raise.  [UserError] stands for
    whatever a user-supplied callback raises. *)
Inductive exn :=
| AssertionError | KeyError | ValueError | IndexError | IOError
| AttributeError | StructError | UserError.

(** Result of a call on mutable state [S] that returns an [A]: the state is
    kept on both paths, since an exception does not undo earlier
    mutations. *)
Inductive result (A S : Type) :=
| Return (a : A) (s : S)
| Raise (e : exn) (s : S).
Arguments Return {A S} a s.
Arguments Raise {A S} e s.

#[global] Instance exn_eq_dec : EqDecision exn.
Proof. solve_decision. Defined.

#[global] Instance result_eq_dec {A S} `{EqDecision A, EqDecision S} :
  EqDecision (result A S).
Proof. solve_decision. Defined.

Abbreviation outcome S := (result unit S).

Definition state_of {A S} (r : result A S) : S :=
  match r with Return _ s => s | Raise _ s => s end.

Definition raised {A S} (r : result A S) : option exn :=
  match r with Return _ _ => None | Raise e _ => Some e end.

(** [list.remove(x)]: drops the first occurrence, [ValueError] (here
    [None]) when there is none. *)
Fixpoint list_remove {A} `{EqDecision A} (x : A) (l : list A) : option (list A) :=
  match l with
  | [] => None
  | y :: l' => if decide (x = y) then Some l'
               else cons y <$> list_remove x l'
  end.

#[global] Instance byte_eq_dec : EqDecision byte := Byte.byte_eq_dec.

#[global] Program Instance byte_countable : Countable byte :=
  inj_countable Byte.to_N Byte.of_N Byte.of_to_N.

End Py.
Import Py.

(** ** The routing table ([class Exchange]) *)

Module Exchange.

(** Client objects are compared by identity. *)
Abbreviation client := nat.

Section Routing.

(** Compiled regular expressions come from Python's [re]: objects with
    identity and a [match] method (anchored at the start of the
    candidate). *)
Context {pattern : Type} `{Countable pattern}.
Variable re_match : pattern -> bytes -> bool.

Inductive Qid :=
| Literal (s : bytes)
| Pattern (p : pattern).

#[global] Instance Qid_eq_dec : EqDecision Qid.
Proof. solve_decision. Defined.

#[global] Program Instance Qid_countable : Countable Qid :=
  inj_countable'
    (fun q => match q with Literal s => inl s | Pattern p => inr p end)
    (fun x => match x with inl s => Literal s | inr p => Pattern p end) _.
Next Obligation. by intros []. Qed.

Record t := mk {
  _clients : gmap client (list Qid);        (* client -> qid list *)
  _subscribers : gmap Qid (gset client)     (* qid -> client set  *)
}.

#[global] Instance exchange_eq_dec : EqDecision t.
Proof. solve_decision. Defined.

Definition init : t := mk ∅ ∅.

Definition connect (c : client) (ex : t) : outcome t :=
  Return tt (mk (<[c := []]> (_clients ex)) (_subscribers ex)).

Definition subscribe (qid : Qid) (c : client) (ex : t) : outcome t :=
  match _clients ex !! c with
  | None => Raise AssertionError ex
  | Some l =>
      let s := default ∅ (_subscribers ex !! qid) in
      Return tt (mk (<[c := l ++ [qid]]> (_clients ex))
                    (<[qid := s ∪ {[c]}]> (_subscribers ex)))
  end.

(** [self._subscribers[qid]] on a [defaultdict] creates the entry when it
    is missing, also when the [remove] that follows raises. *)
Definition unsubscribe (qid : Qid) (c : client) (ex : t) : outcome t :=
  match _clients ex !! c with
  | None => Raise AssertionError ex
  | Some l =>
      let s := default ∅ (_subscribers ex !! qid) in
      if decide (c ∈ s) then
        let subs := <[qid := s ∖ {[c]}]> (_subscribers ex) in
        match list_remove qid l with
        | None => Raise ValueError (mk (_clients ex) subs)
        | Some l' => Return tt (mk (<[c := l']> (_clients ex)) subs)
        end
      else Raise KeyError (mk (_clients ex) (<[qid := s]> (_subscribers ex)))
  end.

(** [for qid in self._clients[client]: self.unsubscribe(qid, client)].
    The list being iterated is the very object [unsubscribe] shortens, so
    the iterator's index [i] is applied to the list as it is now.  Every
    round either raises or makes the list one shorter while [i] grows;
    [fuel] bounds the rounds and [None] means it ran out. *)
Fixpoint disconnect_loop (fuel : nat) (i : nat) (c : client) (ex : t)
  : option (outcome t) :=
  match fuel with
  | O => None
  | S fuel' =>
      match default [] (_clients ex !! c) !! i with
      | None => Some (Return tt ex)
      | Some qid =>
          match unsubscribe qid c ex with
          | Return _ ex' => disconnect_loop fuel' (S i) c ex'
          | Raise e ex' => Some (Raise e ex')
          end
      end
  end.

Definition disconnect (c : client) (ex : t) : option (outcome t) :=
  match _clients ex !! c with
  | None => Some (Return tt ex)
  | Some l =>
      match disconnect_loop (S (length l)) 0 c ex with
      | Some (Return _ ex') =>
          Some (Return tt (mk (delete c (_clients ex')) (_subscribers ex')))
      | r => r
      end
  end.

(** The test of [dispatch] on one subscription key [t]:
    [(type(t) == StringType and t == qid) or
     (hasattr(t, 'match') and t.match(qid))]. *)
Definition key_matches (k : Qid) (qid : bytes) : bool :=
  match k with
  | Literal s => bool_decide (s = qid)
  | Pattern p => re_match p qid
  end.

(** The set [clients] built by the loop over the keys of
    [self._subscribers]. *)
Definition recipients (qid : bytes) (ex : t) : gset client :=
  map_fold (fun k s acc => if key_matches k qid then acc ∪ s else acc)
           ∅ (_subscribers ex).

(** One call [c.on_message(qid, message)]. *)
Definition delivery : Type := client * bytes * bytes.

Section Dispatch.

(** [on_message] is a method of the client object: the base class returns
    at once, [Connection.on_message] queues the message or fails its
    assertion, the client of [test1_server.py] reads an attribute that may
    not be set.  It runs on [W], the state of everything a client's method
    can reach, and returns or raises. *)
Context {W : Type}.
Variable on_message : client -> bytes -> bytes -> W -> outcome W.

(** [[c.on_message(qid, message) for c in clients]]: the calls in
    iteration order, each on the state the one before it left.  Nothing
    catches an exception here, so the first call that raises ends the
    comprehension.  The first component lists the calls that were made, the
    raising one included. *)
Fixpoint call_each (clients : list client) (qid message : bytes) (w : W)
  : list delivery * outcome W :=
  match clients with
  | [] => ([], Return tt w)
  | c :: clients' =>
      match on_message c qid message w with
      | Return _ w' =>
          let '(calls, r) := call_each clients' qid message w' in
          ((c, qid, message) :: calls, r)
      | Raise e w' => ([(c, qid, message)], Raise e w')
      end
  end.

(** [dispatch] reads the table [self] to collect [clients] and then only
    calls [on_message]; it gives the calls it made, in order, and how it
    ended.  [r] is the draw of [random.choice]: the index it picks in the
    list of candidates is [r mod len]; on the empty list no index exists
    and [random.choice] raises [IndexError]. *)
Definition dispatch (r : nat) (qid message : bytes) (multicast : bool)
    (self : t) (w : W) : list delivery * outcome W :=
  let clients := elements (recipients qid self) in
  if multicast then call_each clients qid message w
  else
    match clients !! (r `mod` length clients)%nat with
    | None => ([], Raise IndexError w)
    | Some c => ([(c, qid, message)], on_message c qid message w)
    end.

End Dispatch.

(** Sequences of table operations, as a caller that carries on after an
    exception sees them. *)
Inductive op :=
| Connect (c : client)
| Disconnect (c : client)
| Subscribe (qid : Qid) (c : client)
| Unsubscribe (qid : Qid) (c : client).

Definition exec (o : op) (ex : t) : option (outcome t) :=
  match o with
  | Connect c => Some (connect c ex)
  | Disconnect c => disconnect c ex
  | Subscribe q c => Some (subscribe q c ex)
  | Unsubscribe q c => Some (unsubscribe q c ex)
  end.

Fixpoint run (ops : list op) (ex : t) : option t :=
  match ops with
  | [] => Some ex
  | o :: ops' =>
      match exec o ex with
      | Some r => run ops' (state_of r)
      | None => None
      end
  end.

(** Presence of a pair in each of the two maps. *)
Definition in_by_qid (ex : t) (qid : Qid) (c : client) : Prop :=
  ∃ s, _subscribers ex !! qid = Some s ∧ c ∈ s.

Definition in_by_client (ex : t) (qid : Qid) (c : client) : Prop :=
  ∃ l, _clients ex !! c = Some l ∧ qid ∈ l.

Definition agree (ex : t) : Prop :=
  ∀ qid c, in_by_qid ex qid c ↔ in_by_client ex qid c.

(** The by-client lists hold no qid twice. *)
Definition lists_nodup (ex : t) : Prop :=
  ∀ c l, _clients ex !! c = Some l → NoDup l.

Definition consistent (ex : t) : Prop := agree ex ∧ lists_nodup ex.

(** The operations after which the two maps provably stay in step:
    [connect] of a client that is not in the table, [subscribe] of a pair
    that is not subscribed, any [unsubscribe], and [disconnect] of a client
    that holds at most one subscription. *)
Definition admissible (o : op) (ex : t) : bool :=
  match o with
  | Connect c => bool_decide (_clients ex !! c = None)
  | Subscribe qid c => bool_decide (c ∉ default ∅ (_subscribers ex !! qid))
  | Unsubscribe _ _ => true
  | Disconnect c => bool_decide (length (default [] (_clients ex !! c)) ≤ 1)%nat
  end.

Fixpoint admissible_run (ops : list op) (ex : t) : bool :=
  match ops with
  | [] => true
  | o :: ops' =>
      admissible o ex &&
      match exec o ex with
      | Some r => admissible_run ops' (state_of r)
      | None => false
      end
  end.

(** The entries of a list at positions 0, 2, 4, ... and at positions
    1, 3, 5, ... *)
Fixpoint evens {A} (l : list A) : list A :=
  match l with
  | [] => []
  | [x] => [x]
  | x :: _ :: l' => x :: evens l'
  end.

Fixpoint odds {A} (l : list A) : list A :=
  match l with
  | [] => []
  | [_] => []
  | _ :: y :: l' => y :: odds l'
  end.

End Routing.

Arguments Qid pattern : clear implicits.
Arguments t pattern {_ _}.
Arguments op pattern : clear implicits.

End Exchange.

(** ** The in-process participant ([class Client]) *)

Module Client.

Import Exchange.

Section Participants.

Context {pattern : Type} `{Countable pattern}.
Variable re_match : pattern -> bytes -> bool.

(** The objects a client method can touch: the exchanges, and per client
    the [connected] flag (the set of clients whose flag is [True]) and the
    [_exchange] attribute (absent before [connect] and after
    [disconnect]). *)
Record world := mk {
  exchanges : gmap nat (Exchange.t pattern);
  connected : gset client;
  _exchange : gmap client nat
}.

Definition with_exchange (w : world) (e : nat) (ex : Exchange.t pattern) : world :=
  mk (<[e := ex]> (exchanges w)) (connected w) (_exchange w).

(** Runs a method of the exchange [self._exchange] refers to.  Reading the
    attribute when it is absent raises [AttributeError]; a reference always
    points to an exchange of the world. *)
Definition on_exchange {A} (self : client) (w : world)
    (m : Exchange.t pattern -> result A (Exchange.t pattern)) : result A world :=
  match _exchange w !! self with
  | None => Raise AttributeError w
  | Some e =>
      match exchanges w !! e with
      | None => Raise AttributeError w
      | Some ex =>
          match m ex with
          | Return a ex' => Return a (with_exchange w e ex')
          | Raise err ex' => Raise err (with_exchange w e ex')
          end
      end
  end.

Definition subscribe (self : client) (qid : Qid pattern) (w : world) : outcome world :=
  if decide (self ∈ connected w)
  then on_exchange self w (Exchange.subscribe qid self)
  else Return tt w.

Definition unsubscribe (self : client) (qid : Qid pattern) (w : world) : outcome world :=
  if decide (self ∈ connected w)
  then on_exchange self w (Exchange.unsubscribe qid self)
  else Return tt w.

(** The base class's [on_message] is [pass]. *)
Definition on_message (self : client) (qid message : bytes) (w : world)
  : outcome world := Return tt w.

(** The [on_message] methods of the client objects in the world, as their
    classes define them. *)
Variable on_message_of : client -> bytes -> bytes -> world -> outcome world.

(** [send] gives the [on_message] calls the dispatch made and how it
    ended. *)
Definition send (r : nat) (self : client) (qid message : bytes) (multicast : bool)
    (w : world) : list delivery * outcome world :=
  if decide (self ∈ connected w) then
    match _exchange w !! self with
    | None => ([], Raise AttributeError w)
    | Some e =>
        match exchanges w !! e with
        | None => ([], Raise AttributeError w)
        | Some ex =>
            Exchange.dispatch re_match on_message_of r qid message multicast ex w
        end
    end
  else ([], Return tt w).

(** [connect]: the hook [on_connected] of the base class is [pass]. *)
Definition connect (self : client) (e : nat) (w : world) : outcome world :=
  if decide (self ∈ connected w) then Raise AssertionError w
  else
    let w1 := mk (exchanges w) (connected w) (<[self := e]> (_exchange w)) in
    match on_exchange self w1 (Exchange.connect self) with
    | Return _ w2 =>
        Return tt (mk (exchanges w2) (connected w2 ∪ {[self]}) (_exchange w2))
    | Raise err w2 => Raise err w2
    end.

(** [disconnect]: [assert self._exchange] reads the attribute, the
    exchange drops the client, the attribute is deleted and the flag
    cleared; the hook [on_disconnected] of the base class is [pass].
    [None] is the loop of [Exchange.disconnect] out of fuel. *)
Definition disconnect (self : client) (w : world) : option (outcome world) :=
  match _exchange w !! self with
  | None => Some (Raise AttributeError w)
  | Some e =>
      match exchanges w !! e with
      | None => Some (Raise AttributeError w)
      | Some ex =>
          match Exchange.disconnect self ex with
          | Some (Return _ ex') =>
              let w1 := with_exchange w e ex' in
              Some (Return tt (mk (exchanges w1) (connected w1 ∖ {[self]})
                                  (delete self (_exchange w1))))
          | Some (Raise err ex') => Some (Raise err (with_exchange w e ex'))
          | None => None
          end
      end
  end.

End Participants.

Arguments world pattern {_ _}.

End Client.

(** ** The buffered non-blocking stream ([class IOStream]) *)

Module IOStream.

(** Event masks of [tornado.ioloop.IOLoop] and the two would-block error
    numbers of [errno]. *)
Definition READ : Z := 0x001.
Definition WRITE : Z := 0x004.
Definition ERROR : Z := 0x018.
Definition EAGAIN : Z := 11.
Definition EWOULDBLOCK : Z := 11.

(** What the socket answers to [send(x)]: the number of bytes it took, or
    a [socket.error] with its error number. *)
Inductive send_result :=
| Sent (num_bytes : Z)
| SendError (errno : Z).

(** What the socket answers to [recv(n)]: a chunk ([[]] at end of file), or
    a [socket.error] with its error number. *)
Inductive recv_result :=
| Received (chunk : bytes)
| RecvError (errno : Z).

Section Stream.

(** [cb] names the callbacks handed to the stream. *)
Context {cb : Type}.

Record t := mk {
  socket : option Z;                      (* file descriptor; None once closed *)
  max_buffer_size : Z;
  read_chunk_size : Z;
  _read_buffer : list bytes;              (* deque of chunks, head first *)
  _read_buffer_size : Z;
  _write_buffer : list (bytes * option cb);
  _write_buffer_size : Z;
  _read_bytes : option Z;
  _read_callback : option cb;
  _close_callback : option cb;
  _state : Z;
  handler : option Z                      (* mask registered with the io_loop *)
}.

#[global] Instance stream_eq_dec `{EqDecision cb} : EqDecision t.
Proof. solve_decision. Defined.

(** [IOStream(socket)] with the default sizes; the constructor registers
    the descriptor for [ERROR]. *)
Definition init (fd : Z) : t :=
  mk (Some fd) 104857600 4096 [] 0 [] 0 None None None ERROR (Some ERROR).

Definition set_socket (v : option Z) (s : t) : t :=
  mk v (max_buffer_size s) (read_chunk_size s) (_read_buffer s)
     (_read_buffer_size s) (_write_buffer s) (_write_buffer_size s)
     (_read_bytes s) (_read_callback s) (_close_callback s) (_state s) (handler s).

Definition set_read_buffer (v : list bytes) (s : t) : t :=
  mk (socket s) (max_buffer_size s) (read_chunk_size s) v
     (_read_buffer_size s) (_write_buffer s) (_write_buffer_size s)
     (_read_bytes s) (_read_callback s) (_close_callback s) (_state s) (handler s).

Definition set_read_buffer_size (v : Z) (s : t) : t :=
  mk (socket s) (max_buffer_size s) (read_chunk_size s) (_read_buffer s)
     v (_write_buffer s) (_write_buffer_size s)
     (_read_bytes s) (_read_callback s) (_close_callback s) (_state s) (handler s).

Definition set_write_buffer (v : list (bytes * option cb)) (s : t) : t :=
  mk (socket s) (max_buffer_size s) (read_chunk_size s) (_read_buffer s)
     (_read_buffer_size s) v (_write_buffer_size s)
     (_read_bytes s) (_read_callback s) (_close_callback s) (_state s) (handler s).

Definition set_write_buffer_size (v : Z) (s : t) : t :=
  mk (socket s) (max_buffer_size s) (read_chunk_size s) (_read_buffer s)
     (_read_buffer_size s) (_write_buffer s) v
     (_read_bytes s) (_read_callback s) (_close_callback s) (_state s) (handler s).

Definition set_reading (n : option Z) (c : option cb) (s : t) : t :=
  mk (socket s) (max_buffer_size s) (read_chunk_size s) (_read_buffer s)
     (_read_buffer_size s) (_write_buffer s) (_write_buffer_size s)
     n c (_close_callback s) (_state s) (handler s).

Definition set_close_callback (c : cb) (s : t) : t :=
  mk (socket s) (max_buffer_size s) (read_chunk_size s) (_read_buffer s)
     (_read_buffer_size s) (_write_buffer s) (_write_buffer_size s)
     (_read_bytes s) (_read_callback s) (Some c) (_state s) (handler s).

Definition set_state (v : Z) (s : t) : t :=
  mk (socket s) (max_buffer_size s) (read_chunk_size s) (_read_buffer s)
     (_read_buffer_size s) (_write_buffer s) (_write_buffer_size s)
     (_read_bytes s) (_read_callback s) (_close_callback s) v (handler s).

Definition set_handler (v : option Z) (s : t) : t :=
  mk (socket s) (max_buffer_size s) (read_chunk_size s) (_read_buffer s)
     (_read_buffer_size s) (_write_buffer s) (_write_buffer_size s)
     (_read_bytes s) (_read_callback s) (_close_callback s) (_state s) v.

(** The bytes the read buffer holds, in arrival order. *)
Definition buffered (s : t) : bytes := concat (_read_buffer s).

(** The bytes the write buffer holds, in the order they go out. *)
Definition queued (s : t) : bytes := concat (fst <$> _write_buffer s).

Definition reading (s : t) : bool := bool_decide (is_Some (_read_callback s)).
Definition writing (s : t) : bool := 0 <? _write_buffer_size s.
Definition closed (s : t) : bool := bool_decide (socket s = None).

Definition _check_closed (s : t) : outcome t :=
  match socket s with
  | None => Raise IOError s
  | Some _ => Return tt s
  end.

(** [io_loop.update_handler(self.socket.fileno(), self._state)]; on a
    closed stream [self.socket] is [None] and has no [fileno]. *)
Definition update_handler (s : t) : outcome t :=
  match socket s with
  | None => Raise AttributeError s
  | Some _ => Return tt (set_handler (Some (_state s)) s)
  end.

Definition _add_io_state (state : Z) (s : t) : outcome t :=
  if Z.land (_state s) state =? 0
  then update_handler (set_state (Z.lor (_state s) state) s)
  else Return tt s.

(** As in the source, the guard is the one of [_add_io_state]. *)
Definition _remove_io_state (state : Z) (s : t) : outcome t :=
  if Z.land (_state s) state =? 0
  then update_handler (set_state (Z.land (_state s) (Z.lnot state)) s)
  else Return tt s.

(** The [while n < loc] loop of [_consume]: pops chunks off [buf] onto
    [acc]; [None] is the [IndexError] of [popleft] on an empty deque. *)
Fixpoint consume_loop (loc n : Z) (acc buf : list bytes) {struct buf}
  : option (Z * list bytes * list bytes) :=
  if n <? loc then
    match buf with
    | [] => None
    | x :: buf' => consume_loop loc (n + len x) (acc ++ [x]) buf'
    end
  else Some (n, acc, buf).

Definition _consume (loc : Z) (s : t) : result bytes t :=
  match _read_buffer s with
  | [] => Raise IndexError s
  | x :: buf =>
      let finish (result : bytes) (buf' : list bytes) :=
        Return result
          (set_read_buffer_size (_read_buffer_size s - len result)
             (set_read_buffer buf' s)) in
      if loc <? len x then finish (slice_to loc x) (slice_from loc x :: buf)
      else if len x =? loc then finish x buf
      else
        match consume_loop loc (len x) [x] buf with
        | None => Raise IndexError (set_read_buffer [] s)
        | Some (n, acc, buf') =>
            if loc <? n then
              let x' := List.last acc [] in
              let i := len x' - (n - loc) in
              finish (concat (removelast acc ++ [slice_to i x']))
                     (slice_from i x' :: buf')
            else finish (concat acc) buf'
        end
  end.

(** [call c args s] is what running callback [c] does, as the stream sees
    it: the stream after the callback used it, and whether the callback
    raised. *)
Variable call : cb -> list bytes -> t -> outcome t.

(** The stream offers no way to reopen it: a callback that finds the socket
    gone leaves it gone. *)
Definition keeps_closed : Prop :=
  ∀ c args s, socket s = None → socket (state_of (call c args s)) = None.

(** [close] and [_run_callback] call each other; [fuel] bounds the nesting
    and [None] means it ran out. *)
Fixpoint close (fuel : nat) (s : t) : option (outcome t) :=
  match fuel with
  | O => None
  | S fuel' =>
      match socket s with
      | None => Some (Return tt s)
      | Some _ =>
          let s1 := set_socket None (set_handler None s) in
          match _close_callback s1 with
          | None => Some (Return tt s1)
          | Some c => _run_callback fuel' c [] s1
          end
      end
  end
with _run_callback (fuel : nat) (c : cb) (args : list bytes) (s : t)
  : option (outcome t) :=
  match fuel with
  | O => None
  | S fuel' =>
      match call c args s with
      | Return _ s' => Some (Return tt s')
      | Raise e s' =>
          match close fuel' s' with
          | Some (Return _ s'') => Some (Raise e s'')
          | r => r
          end
      end
  end.

Definition read_bytes (num_bytes : Z) (callback : cb) (s : t) : outcome t :=
  match _read_callback s with
  | Some _ => Raise AssertionError s
  | None =>
      if num_bytes <=? _read_buffer_size s then
        match _consume num_bytes s with
        | Return data s' => call callback [data] s'
        | Raise e s' => Raise e s'
        end
      else
        match _check_closed s with
        | Return _ s1 =>
            _add_io_state READ (set_reading (Some num_bytes) (Some callback) s1)
        | Raise e s1 => Raise e s1
        end
  end.

Definition write (data : bytes) (callback : option cb) (s : t) : outcome t :=
  match _check_closed s with
  | Return _ s1 =>
      _add_io_state WRITE
        (set_write_buffer_size (_write_buffer_size s1 + len data)
           (set_write_buffer (_write_buffer s1 ++ [(data, callback)]) s1))
  | Raise e s1 => Raise e s1
  end.

(** The tail of [_handle_write], after the [try] block: re-arm or disarm
    [WRITE], then run the completion of a finished write. *)
Definition handle_write_rearm (fuel : nat) (done : option cb) (s : t)
  : option (outcome t) :=
  match (if 0 <? _write_buffer_size s
         then _add_io_state WRITE s else _remove_io_state WRITE s) with
  | Return _ s' =>
      match done with
      | Some c => _run_callback fuel c [] s'
      | None => Some (Return tt s')
      end
  | Raise e s' => Some (Raise e s')
  end.

(** [_handle_write]; [sr] is the answer of [self.socket.send(x)]. *)
Definition _handle_write (fuel : nat) (sr : send_result) (s : t)
  : option (outcome t) :=
  if _write_buffer_size s =? 0 then handle_write_rearm fuel None s
  else
    match _write_buffer s with
    | [] => Some (Raise IndexError s)
    | (x, callback) :: rest =>
        let s1 := set_write_buffer rest s in
        match socket s1, sr with
        | None, _ => Some (Raise AttributeError s1)
        | Some _, Sent num_bytes =>
            if num_bytes <? len x then
              handle_write_rearm fuel None
                (set_write_buffer_size (_write_buffer_size s1 - num_bytes)
                   (set_write_buffer ((slice_from num_bytes x, callback) :: rest) s1))
            else
              handle_write_rearm fuel callback
                (set_write_buffer_size (_write_buffer_size s1 - num_bytes) s1)
        | Some _, SendError errno =>
            if bool_decide (errno = EWOULDBLOCK ∨ errno = EAGAIN)
            then handle_write_rearm fuel None s1
            else close fuel s1
        end
    end.

(** Outcome of a handler that can reach [_run_callback] with [None] for a
    callback: [NotCallable s] is the [TypeError] of calling [None],
    re-raised after [close] left the stream as [s]. *)
Inductive handled :=
| Handled (r : outcome t)
| NotCallable (s : t).

#[global] Instance handled_eq_dec `{EqDecision cb} : EqDecision handled.
Proof. solve_decision. Defined.

(** [_run_callback(callback, data)] where [callback] may be [None]. *)
Definition run_optional_callback (fuel : nat) (callback : option cb)
    (data : bytes) (s : t) : option handled :=
  match callback with
  | Some c => Handled <$> _run_callback fuel c [data] s
  | None =>
      match close fuel s with
      | Some (Return _ s') => Some (NotCallable s')
      | Some (Raise e s') => Some (Handled (Raise e s'))
      | None => None
      end
  end.

(** [_consume(None)]: Python 2 orders [None] below every number, so
    [length > loc] holds, and [x[:None]] and [x[None:]] are both [x]: the
    first chunk is returned and stays in the buffer, and the running total
    goes down by its length. *)
Definition consume_None (s : t) : result bytes t :=
  match _read_buffer s with
  | [] => Raise IndexError s
  | x :: _ => Return x (set_read_buffer_size (_read_buffer_size s - len x) s)
  end.

(** [_handle_read]; [rr] is the answer of
    [self.socket.recv(self.read_chunk_size)].  With no read pending,
    [self._read_buffer_size >= self._read_bytes] compares with [None] and
    holds. *)
Definition _handle_read (fuel : nat) (rr : recv_result) (s : t) : option handled :=
  if max_buffer_size s <=? _read_buffer_size s then Some (Handled (Return tt s))
  else
    match socket s, rr with
    | None, _ => Some (Handled (Raise AttributeError s))
    | Some _, RecvError errno =>
        if bool_decide (errno = EWOULDBLOCK ∨ errno = EAGAIN)
        then Some (Handled (Return tt s))
        else Handled <$> close fuel s
    | Some _, Received [] => Handled <$> close fuel s
    | Some _, Received chunk =>
        let s1 := set_read_buffer_size (_read_buffer_size s + len chunk)
                    (set_read_buffer (_read_buffer s ++ [chunk]) s) in
        if max_buffer_size s1 <=? _read_buffer_size s1
        then Handled <$> close fuel s1
        else
          let callback := _read_callback s1 in
          let s2 := set_reading None None s1 in
          match _read_bytes s1 with
          | Some num_bytes =>
              if num_bytes <=? _read_buffer_size s1 then
                match _consume num_bytes s2 with
                | Return data s3 => run_optional_callback fuel callback data s3
                | Raise e s3 => Some (Handled (Raise e s3))
                end
              else Some (Handled (Return tt s1))
          | None =>
              match consume_None s2 with
              | Return data s3 => run_optional_callback fuel callback data s3
              | Raise e s3 => Some (Handled (Raise e s3))
              end
          end
    end.

(** The interest mask [_handle_events] computes at its end:
    [if self._read_bytes] and [if self._write_buffer_size] test for a
    value that is neither [None] nor zero. *)
Definition wanted_state (s : t) : Z :=
  let state := ERROR in
  let state := match _read_bytes s with
               | Some n => if n =? 0 then state else Z.lor state READ
               | None => state
               end in
  if _write_buffer_size s =? 0 then state else Z.lor state WRITE.

(** [_handle_events(fd, events)], with the answers of the socket to the
    [recv] and the [send] the handlers may make. *)
Definition _handle_events (fuel : nat) (events : Z) (rr : recv_result)
    (sr : send_result) (s : t) : option handled :=
  match socket s with
  | None => Some (Handled (Return tt s))
  | Some _ =>
      match (if Z.land events READ =? 0 then Some (Handled (Return tt s))
             else _handle_read fuel rr s) with
      | Some (Handled (Return _ s1)) =>
          match socket s1 with
          | None => Some (Handled (Return tt s1))
          | Some _ =>
              match (if Z.land events WRITE =? 0 then Some (Return tt s1)
                     else _handle_write fuel sr s1) with
              | Some (Return _ s2) =>
                  match socket s2 with
                  | None => Some (Handled (Return tt s2))
                  | Some _ =>
                      if Z.land events ERROR =? 0 then
                        if wanted_state s2 =? _state s2
                        then Some (Handled (Return tt s2))
                        else Some (Handled
                               (update_handler (set_state (wanted_state s2) s2)))
                      else Handled <$> close fuel s2
                  end
              | r => Handled <$> r
              end
          end
      | r => r
      end
  end.

End Stream.

Arguments t cb : clear implicits.
Arguments handled cb : clear implicits.

End IOStream.

(** ** The server side of one socket ([class Connection]): egress *)

Module Connection.

Definition OP_MESSAGE : Z := 5.

Definition byte_of_Z (z : Z) : byte :=
  default x00 (Byte.of_N (Z.to_N (z `mod` 256))).

(** [struct.pack('!I', v)]: four bytes, most significant first;
    [struct.error] (here [None]) when [v] does not fit 32 bits. *)
Definition pack_I (v : Z) : option bytes :=
  if (0 <=? v) && (v <? 2 ^ 32)
  then Some [byte_of_Z (v ≫ 24); byte_of_Z (v ≫ 16); byte_of_Z (v ≫ 8); byte_of_Z v]
  else None.

(** The callbacks a connection hands to its stream and to the io_loop.
    [on_send_complete qid q] is the closure [_recv] builds over the pair it
    popped off the fair queue. *)
Inductive closure :=
| on_send_complete_cb (qid : bytes) (q : nat)
| _recv_cb
| _on_close_cb
| _on_header_cb.

#[global] Instance closure_eq_dec : EqDecision closure.
Proof. solve_decision. Defined.

Section Egress.

(** What the stream's callbacks do to the stream (see [IOStream.close]). *)
Variable call : closure -> list bytes -> IOStream.t closure -> outcome (IOStream.t closure).

(** The [deque] objects live in [deques], named by identity: [_mq] and the
    entries of [_fq] refer to them, and an append through one reference is
    seen through the others.  A deque's right end is the end of its list. *)
Record t := mk {
  _stream : IOStream.t closure;
  deques : gmap nat (list bytes);
  _mq : gmap bytes nat;               (* one queue for each qid *)
  _fq : list (bytes * nat);           (* fair queue of mq *)
  _recving : bool;
  callbacks : list closure            (* io_loop.add_callback, oldest first *)
}.

#[global] Instance connection_eq_dec : EqDecision t.
Proof. solve_decision. Defined.

Definition with_stream (s : IOStream.t closure) (st : t) : t :=
  mk s (deques st) (_mq st) (_fq st) (_recving st) (callbacks st).

Definition with_deque (q : nat) (d : list bytes) (st : t) : t :=
  mk (_stream st) (<[q := d]> (deques st)) (_mq st) (_fq st) (_recving st)
     (callbacks st).

Definition with_fq (fq : list (bytes * nat)) (st : t) : t :=
  mk (_stream st) (deques st) (_mq st) fq (_recving st) (callbacks st).

Definition with_recving (v : bool) (st : t) : t :=
  mk (_stream st) (deques st) (_mq st) (_fq st) v (callbacks st).

Definition add_callback (c : closure) (st : t) : t :=
  mk (_stream st) (deques st) (_mq st) (_fq st) (_recving st)
     (callbacks st ++ [c]).

(** [Connection.__init__] on a fresh stream over descriptor [fd]. *)
Definition init (fd : Z) : t :=
  let s := state_of (IOStream.read_bytes call 4 _on_header_cb (IOStream.init fd)) in
  mk (IOStream.set_close_callback _on_close_cb s) ∅ ∅ [] false [].

(** [self._mq[qid]]: the [defaultdict] makes a new deque for a new key. *)
Definition mq_getitem (qid : bytes) (st : t) : nat * t :=
  match _mq st !! qid with
  | Some q => (q, st)
  | None =>
      let q := fresh (dom (deques st)) in
      (q, mk (_stream st) (<[q := []]> (deques st)) (<[qid := q]> (_mq st))
             (_fq st) (_recving st) (callbacks st))
  end.

Definition deque_of (q : nat) (st : t) : list bytes := default [] (deques st !! q).

Definition on_message (qid message : bytes) (st : t) : outcome t :=
  if len message <=? IOStream.max_buffer_size (_stream st) then
    let '(q, st1) := mq_getitem qid st in
    let st2 := with_deque q (deque_of q st1 ++ [message]) st1 in
    let st3 := if len (deque_of q st2) =? 1
               then with_fq (_fq st2 ++ [(qid, q)]) st2 else st2 in
    Return tt (if _recving st3 then st3 else add_callback _recv_cb st3)
  else Raise AssertionError st.

(** The three [write] calls of [_recv], within its [try]. *)
Definition write_frame (header qid x : bytes) (done : closure)
    (s : IOStream.t closure) : outcome (IOStream.t closure) :=
  match IOStream.write header None s with
  | Return _ s1 =>
      match IOStream.write qid None s1 with
      | Return _ s2 => IOStream.write x (Some done) s2
      | Raise e s2 => Raise e s2
      end
  | Raise e s1 => Raise e s1
  end.

Definition _recv (fuel : nat) (st : t) : option (outcome t) :=
  match reverse (_fq st) with
  | [] => Some (Raise AssertionError st)
  | (qid, q) :: rest =>
      let st1 := with_recving true (with_fq (reverse rest) st) in
      match reverse (deque_of q st1) with
      | [] => Some (Raise IndexError st1)
      | x :: d =>
          let st2 := with_deque q (reverse d) st1 in
          let header := Z.lor (Z.lor (OP_MESSAGE ≪ 29) (len qid ≪ 20)) (len x) in
          match pack_I header with
          | None => Some (Raise StructError st2)
          | Some h =>
              match write_frame h qid x (on_send_complete_cb qid q) (_stream st2) with
              | Return _ s => Some (Return tt (with_stream s st2))
              | Raise IOError s =>
                  match IOStream.close call fuel s with
                  | Some (Return _ s') => Some (Return tt (with_stream s' st2))
                  | Some (Raise e s') => Some (Raise e (with_stream s' st2))
                  | None => None
                  end
              | Raise e s => Some (Raise e (with_stream s st2))
              end
          end
      end
  end.

(** The body of the closure [on_send_complete] over [(qid, q)]. *)
Definition on_send_complete (qid : bytes) (q : nat) (st : t) : outcome t :=
  let r :=
    if 0 <? len (deque_of q st)
    then Return tt (with_fq (_fq st ++ [(qid, q)]) st)
    else
      match _mq st !! qid with
      | None => Raise KeyError st
      | Some _ =>
          Return tt (mk (_stream st) (deques st) (delete qid (_mq st)) (_fq st)
                        (_recving st) (callbacks st))
      end in
  match r with
  | Return _ st1 =>
      Return tt (if 0 <? len (_fq st1)
                 then add_callback _recv_cb st1 else with_recving false st1)
  | Raise e st1 => Raise e st1
  end.

(** The write handler of the stream, [IOStream._handle_write], run on
    WRITE readiness for a socket that takes every head entry whole
    ([num_bytes = len(x)]): the entries go out one per run, down to the
    first that carries a completion.  [size] is [_write_buffer_size]: once
    it is zero the handler pops nothing, whatever is still queued (an empty
    body, after its header and qid went out, stays with its completion);
    [popleft] on an empty deque is an [IndexError].  Gives the completion
    to run, if one is reached, with the entries and the size left. *)
Fixpoint drain (wb : list (bytes * option closure)) (size : Z)
  : result (option closure) (list (bytes * option closure) * Z) :=
  if size =? 0 then Return None (wb, size)
  else
    match wb with
    | [] => Raise IndexError ([], size)
    | (x, None) :: wb' => drain wb' (size - len x)
    | (x, Some k) :: wb' => Return (Some k) (wb', size - len x)
    end.

(** What the connection observes. *)
Inductive event :=
| OnMessage (qid message : bytes)   (* the exchange calls [on_message] *)
| RunCallback                       (* the io_loop runs its oldest callback *)
| SendComplete.                     (* the socket takes the queued writes, see [drain] *)

Definition run_closure (fuel : nat) (k : closure) (st : t) : option (outcome t) :=
  match k with
  | _recv_cb => _recv fuel st
  | on_send_complete_cb qid q => Some (on_send_complete qid q st)
  | _ => Some (Return tt st)
  end.

(** The stream's handler does nothing on a closed stream.  A completion
    runs under the stream's [_run_callback]: when it raises, the stream
    closes and the exception goes on. *)
Definition send_complete (fuel : nat) (st : t) : option (outcome t) :=
  let s := _stream st in
  let sent '(wb, size) :=
    with_stream (IOStream.set_write_buffer_size size
                   (IOStream.set_write_buffer wb s)) st in
  match IOStream.socket s with
  | None => Some (Return tt st)
  | Some _ =>
      match drain (IOStream._write_buffer s) (IOStream._write_buffer_size s) with
      | Raise e rest => Some (Raise e (sent rest))
      | Return None rest => Some (Return tt (sent rest))
      | Return (Some k) rest =>
          match run_closure fuel k (sent rest) with
          | Some (Raise e st') =>
              match IOStream.close call fuel (_stream st') with
              | Some r =>
                  Some (Raise (default e (raised r)) (with_stream (state_of r) st'))
              | None => None
              end
          | r => r
          end
      end
  end.

Definition step (fuel : nat) (ev : event) (st : t) : option (outcome t) :=
  match ev with
  | OnMessage qid message => Some (on_message qid message st)
  | RunCallback =>
      match callbacks st with
      | [] => Some (Return tt st)
      | k :: ks =>
          run_closure fuel k
            (mk (_stream st) (deques st) (_mq st) (_fq st) (_recving st) ks)
      end
  | SendComplete => send_complete fuel st
  end.

Fixpoint run (fuel : nat) (evs : list event) (st : t) : option t :=
  match evs with
  | [] => Some st
  | ev :: evs' =>
      match step fuel ev st with
      | Some r => run fuel evs' (state_of r)
      | None => None
      end
  end.

(** The messages written to the stream and not yet taken by the socket:
    the bodies, which are the writes that carry a completion. *)
Definition bodies (st : t) : list bytes :=
  omap (fun e => match snd e with Some _ => Some (fst e) | None => None end)
       (IOStream._write_buffer (_stream st)).

End Egress.

End Connection.

(** ** The frame header (wire codec) *)

Module Wire.

Definition OP_CONNECT : Z := 0.
Definition OP_CONNECTED : Z := 1.
Definition OP_DISCONNECT : Z := 2.
Definition OP_SUBSCRIBE : Z := 3.
Definition OP_UNSUBSCRIBE : Z := 4.
Definition OP_SEND : Z := 6.

(** [struct.unpack('!I', s)]: the number four bytes spell, most significant
    first; [struct.error] (here [None]) for any other length. *)
Definition unpack_I (s : bytes) : option Z :=
  match s with
  | [b3; b2; b1; b0] =>
      Some (Z.lor (Z.lor (Z.lor (Z.of_N (Byte.to_N b3) ≪ 24)
                                (Z.of_N (Byte.to_N b2) ≪ 16))
                         (Z.of_N (Byte.to_N b1) ≪ 8))
                  (Z.of_N (Byte.to_N b0)))
  | _ => None
  end.

(** The fields [_on_header] reads off a header, on either side. *)
Definition op_of (header : Z) : Z := header ≫ 29.
Definition flag_of (header : Z) : Z := Z.land header 0x10000000 ≫ 28.
Definition qid_length_of (header : Z) : Z := Z.land header 0x0FF00000 ≫ 20.
Definition message_length_of (header : Z) : Z := Z.land header 0x000FFFFF.

(** The header [SocketClient._send] builds. *)
Definition send_header (multicast : bool) (qid_length message_length : Z) : Z :=
  Z.lor (Z.lor (Z.lor (OP_SEND ≪ 29) ((if multicast then 1 else 0) ≪ 28))
               (qid_length ≪ 20))
        message_length.

(** The header [SocketClient.subscribe] builds; [x] is 1 for a pattern. *)
Definition subscribe_header (x qid_length : Z) : Z :=
  Z.lor (Z.lor (OP_SUBSCRIBE ≪ 29) (x ≪ 28)) (qid_length ≪ 20).

(** The header [Connection._recv] builds. *)
Definition message_header (qid_length message_length : Z) : Z :=
  Z.lor (Z.lor (Connection.OP_MESSAGE ≪ 29) (qid_length ≪ 20)) message_length.

End Wire.

(** ** The remote participant ([class SocketClient]): sending *)

Module SocketClient.

Import Wire.

(** The callbacks a socket client hands to its stream and to the io_loop;
    [stream_close_cb] is the bound method [self._stream.close]. *)
Inductive closure :=
| _send_cb
| stream_close_cb
| _on_header_cb
| _on_disconnected_cb.

#[global] Instance closure_eq_dec : EqDecision closure.
Proof. solve_decision. Defined.

Section Remote.

(** What the stream's callbacks do to the stream (see [IOStream.close]). *)
Variable call : closure -> list bytes -> IOStream.t closure -> outcome (IOStream.t closure).

(** [_stream] is [None] until [connect] made the stream. *)
Record t := mk {
  _stream : option (IOStream.t closure);
  connected : bool;
  _sending : list (bytes * bytes * bool);     (* (qid, message, multicast) *)
  callbacks : list closure                    (* io_loop.add_callback, oldest first *)
}.

#[global] Instance client_eq_dec : EqDecision t.
Proof. solve_decision. Defined.

Definition with_stream (s : IOStream.t closure) (st : t) : t :=
  mk (Some s) (connected st) (_sending st) (callbacks st).

Definition with_sending (v : list (bytes * bytes * bool)) (st : t) : t :=
  mk (_stream st) (connected st) v (callbacks st).

Definition add_callback (c : closure) (st : t) : t :=
  mk (_stream st) (connected st) (_sending st) (callbacks st ++ [c]).

(** The writes of a frame: header, qid, and the payload when there is
    one. *)
Fixpoint write_all (pieces : list bytes) (s : IOStream.t closure)
  : outcome (IOStream.t closure) :=
  match pieces with
  | [] => Return tt s
  | x :: pieces' =>
      match IOStream.write x None s with
      | Return _ s' => write_all pieces' s'
      | Raise e s' => Raise e s'
      end
  end.

(** The end of [_send]: reschedule while user sends are queued and the
    stream is open. *)
Definition reschedule (s : IOStream.t closure) (st : t) : t :=
  let st' := with_stream s st in
  if (0 <? len (_sending st')) && negb (IOStream.closed s)
  then add_callback _send_cb st' else st'.

Definition _send (fuel : nat) (st : t) : option (outcome t) :=
  match _sending st with
  | [] => Some (Raise IndexError st)
  | (qid, message, multicast) :: rest =>
      let st1 := with_sending rest st in
      if 255 <? len qid then Some (Raise AssertionError st1)
      else
        match _stream st1 with
        | None => Some (Raise AttributeError st1)
        | Some s =>
            if IOStream.max_buffer_size s <? len message
            then Some (Raise AssertionError st1)
            else
              match Connection.pack_I (send_header multicast (len qid) (len message)) with
              | None => Some (Raise StructError st1)
              | Some h =>
                  match write_all [h; qid; message] s with
                  | Return _ s' => Some (Return tt (reschedule s' st1))
                  | Raise IOError s' =>
                      match IOStream.close call fuel s' with
                      | Some (Return _ s'') => Some (Return tt (reschedule s'' st1))
                      | Some (Raise e s'') => Some (Raise e (with_stream s'' st1))
                      | None => None
                      end
                  | Raise e s' => Some (Raise e (with_stream s' st1))
                  end
              end
        end
  end.

Definition send (fuel : nat) (qid message : bytes) (multicast : bool) (st : t)
  : option (outcome t) :=
  match _stream st with
  | None => Some (Raise AttributeError st)
  | Some s =>
      if IOStream.closed s then Some (Raise IOError st)
      else
        let st1 := with_sending (_sending st ++ [(qid, message, multicast)]) st in
        if len (_sending st1) =? 1 then _send fuel st1
        else Some (Return tt st1)
  end.

(** [subscribe(qid)]: a compiled pattern goes out as its source text
    ([qid.pattern]) with the flag set. *)
Definition subscribe (qid : Exchange.Qid bytes) (st : t) : outcome t :=
  let '(x, text) := match qid with
                    | Exchange.Literal s => (0, s)
                    | Exchange.Pattern p => (1, p)
                    end in
  if 255 <? len text then Raise AssertionError st
  else
    match _stream st with
    | None => Raise AttributeError st
    | Some s =>
        match Connection.pack_I (subscribe_header x (len text)) with
        | None => Raise StructError st
        | Some h =>
            match write_all [h; text] s with
            | Return _ s' => Return tt (with_stream s' st)
            | Raise e s' => Raise e (with_stream s' st)
            end
        end
    end.

End Remote.

End SocketClient.

(** ** Concrete inputs *)

Module Examples.

Import Exchange.

(** Patterns read as literal prefixes: what [re.match] does for a pattern
    without metacharacters. *)
Definition prefix_match (p s : bytes) : bool := bool_decide (p `prefix_of` s).

Definition A1 : client := 1%nat.
Definition root : Qid bytes := Literal (b "/").
Definition queue : Qid bytes := Literal (b "/queue").

Definition A2 : client := 2%nat.

(** The two clients of [test1_server.py], each attached to "/" and
    "/queue". *)
Definition two_listeners : Exchange.t bytes :=
  Exchange.mk {[A1 := [root; queue]; A2 := [root; queue]]}
              {[root := {[A1; A2]}; queue := {[A1; A2]}]}.


(** [on_message] of the client of [test1_server.py] while its [_tic]
    attribute is not set (no "start" came yet): a message for "/queue"
    reads the attribute and raises; another message for "/" is printed. *)
Definition no_tic (c : client) (qid message : bytes) (w : unit) : outcome unit :=
  if bool_decide (qid = b "/queue") then Raise AttributeError w else Return tt w.

(** An exchange with one attached client, and a second client object that
    never connected. *)
Definition two_clients : Client.world bytes :=
  state_of (Client.connect 1%nat 0%nat (Client.mk {[0%nat := Exchange.init]} ∅ ∅)).

(** Streams whose callbacks are numbered; [quiet] callbacks return,
    [raising] ones raise at once. *)
Definition quiet : nat → list bytes → IOStream.t nat → outcome (IOStream.t nat) :=
  fun _ _ s => Return tt s.

Definition raising : nat → list bytes → IOStream.t nat → outcome (IOStream.t nat) :=
  fun _ _ s => Raise UserError s.

(** An open stream that received "he", "llo" and " world". *)
Definition three_chunks : IOStream.t nat :=
  IOStream.set_read_buffer_size 11
    (IOStream.set_read_buffer [b "he"; b "llo"; b " world"] (IOStream.init 7)).

(** A fresh stream after [write("abc", callback)]. *)
Definition one_write : IOStream.t nat :=
  state_of (IOStream.write (b "abc") (Some 0%nat) (IOStream.init 7)).

Definition q : bytes := b "q".
Definition m1 : bytes := b "m1".
Definition m2 : bytes := b "m2".

(** A fresh stream after [read_bytes(4, callback)]: the read waits. *)
Definition waiting : IOStream.t nat :=
  state_of (IOStream.read_bytes quiet 4 0%nat (IOStream.init 7)).

(** [waiting] after a chunk "he" arrived. *)
Definition waiting_he : IOStream.t nat :=
  IOStream.set_read_buffer_size 2 (IOStream.set_read_buffer [b "he"] waiting).

(** A client attached to "/" and "/queue", in that order. *)
Definition two_subscriptions : Exchange.t bytes :=
  Exchange.mk {[A1 := [root; queue]]} (<[queue := {[A1]}]> {[root := {[A1]}]}).

(** A client attached to "/" only. *)
Definition one_subscription : Exchange.t bytes :=
  Exchange.mk {[A1 := [root]]} {[root := {[A1]}]}.

(** One exchange and no client. *)
Definition one_exchange : Client.world bytes :=
  Client.mk {[0%nat := Exchange.init]} ∅ ∅.

(** A remote client right after its stream was made. *)
Definition remote_stream : IOStream.t SocketClient.closure := IOStream.init 7.

Definition remote : SocketClient.t :=
  SocketClient.mk (Some remote_stream) true [] [].

Definition hushed : SocketClient.closure → list bytes → IOStream.t SocketClient.closure
                    → outcome (IOStream.t SocketClient.closure) :=
  fun _ _ s => Return tt s.

(** A message of 2^20 bytes. *)
Definition long_message : bytes := replicate (Z.to_nat (2 ^ 20)) "000"%byte.

Definition silent : Connection.closure → list bytes → IOStream.t Connection.closure
                    → outcome (IOStream.t Connection.closure) :=
  fun _ _ s => Return tt s.

(** A connection that just accepted its socket. *)
Definition accepted : Connection.t := Connection.init silent 7.

(** A connection with two messages waiting for "q" and nothing in flight. *)
Definition backlog : Connection.t :=
  Connection.mk (IOStream.init 7) {[0%nat := [m1; m2]]} {[q := 0%nat]}
    [(q, 0%nat)] false [Connection._recv_cb].

End Examples.

(** * Properties *)

(** ** Python helpers *)

Module PyFacts.

Section ListRemove.

Context {A : Type} `{EqDecision A}.
Implicit Types (x y : A) (l : list A).

Lemma list_remove_is_Some x l : x ∈ l → is_Some (list_remove x l).
Proof.
  induction l as [|y l IH]; simpl; [by intros ?%elem_of_nil|].
  intros Hin. destruct (decide (x = y)); [by eexists|].
  apply elem_of_cons in Hin as [?|Hin]; [done|].
  destruct (IH Hin) as [l' ->]. by eexists.
Qed.

Lemma list_remove_None x l : list_remove x l = None → x ∉ l.
Proof.
  intros Hn Hin. apply list_remove_is_Some in Hin as [? ?]. congruence.
Qed.

Lemma list_remove_length x l l' :
  list_remove x l = Some l' → length l = S (length l').
Proof.
  revert l'. induction l as [|y l IH]; simpl; intros l'; [done|].
  destruct (decide (x = y)); [by intros [= ->]|].
  destruct (list_remove x l) as [l0|]; simpl; [|done].
  intros [= <-]. simpl. f_equal. by apply IH.
Qed.

Lemma list_remove_NoDup x l l' :
  NoDup l → list_remove x l = Some l' →
  NoDup l' ∧ ∀ y, y ∈ l' ↔ y ∈ l ∧ y ≠ x.
Proof.
  revert l'. induction l as [|z l IH]; simpl; intros l' Hnd; [done|].
  apply NoDup_cons in Hnd as [Hz Hnd].
  destruct (decide (x = z)) as [->|Hne].
  - intros [= ->]. split; [done|]. intros y. rewrite elem_of_cons.
    split; [|naive_solver]. intros Hy. split; [by right|]. by intros ->.
  - destruct (list_remove x l) as [l0|] eqn:Hr; simpl; [|done].
    intros [= <-]. destruct (IH l0 Hnd eq_refl) as [Hnd0 Hin0]. split.
    + apply NoDup_cons. split; [|done]. rewrite Hin0. naive_solver.
    + intros y. rewrite !elem_of_cons, Hin0. naive_solver.
Qed.

End ListRemove.

End PyFacts.

(** ** The routing table *)

Module ExchangeFacts.

Import Exchange PyFacts Examples.

Section Routing.

Context {pattern : Type} `{Countable pattern}.
Variable re_match : pattern -> bytes -> bool.

Implicit Types (ex : Exchange.t pattern) (qid k : Qid pattern) (c : client).

Lemma recipients_spec (q : bytes) ex c :
  c ∈ recipients re_match q ex ↔
  ∃ k s, _subscribers ex !! k = Some s ∧ c ∈ s ∧ key_matches re_match k q = true.
Proof.
  unfold recipients.
  apply (map_fold_weak_ind (fun acc (m : gmap (Qid pattern) (gset client)) =>
    c ∈ acc ↔ ∃ k s, m !! k = Some s ∧ c ∈ s ∧ key_matches re_match k q = true)).
  - split; [set_solver|]. by intros (k & s & ?%lookup_empty_Some & _).
  - intros k s m acc Hk IH. split.
    + destruct (key_matches re_match k q) eqn:Hm.
      * rewrite elem_of_union, IH. intros [(k' & s' & Hk' & ? & ?)|Hc].
        -- exists k', s'. rewrite lookup_insert_ne; [done|congruence].
        -- exists k, s. by rewrite lookup_insert_eq.
      * rewrite IH. intros (k' & s' & Hk' & ? & ?).
        exists k', s'. rewrite lookup_insert_ne; [done|congruence].
    + intros (k' & s' & Hk' & Hc & Hm').
      destruct (decide (k = k')) as [<-|Hne].
      * rewrite lookup_insert_eq in Hk'. injection Hk' as ->.
        rewrite Hm'. set_solver.
      * rewrite lookup_insert_ne in Hk' by done.
        assert (c ∈ acc) by (apply IH; eauto).
        destruct (key_matches re_match k q); set_solver.
Qed.

(** *** The loop of [disconnect] ends *)

Lemma unsubscribe_Return qid c ex ex' :
  unsubscribe qid c ex = Return tt ex' →
  ∃ l l', _clients ex !! c = Some l ∧ list_remove qid l = Some l' ∧
          c ∈ default ∅ (_subscribers ex !! qid) ∧
          ex' = Exchange.mk (<[c := l']> (_clients ex))
                  (<[qid := default ∅ (_subscribers ex !! qid) ∖ {[c]}]> (_subscribers ex)).
Proof.
  unfold unsubscribe. destruct (_clients ex !! c) as [l|]; [|done].
  destruct (decide _) as [Hc|]; [|done].
  destruct (list_remove qid l) as [l'|] eqn:Hr; [|done].
  intros [= <-]. by exists l, l'.
Qed.

Lemma disconnect_loop_total c fuel : ∀ i ex,
  (length (default [] (_clients ex !! c)) - i < fuel)%nat →
  is_Some (disconnect_loop fuel i c ex).
Proof.
  induction fuel as [|fuel IH]; intros i ex Hlt; [lia|]. simpl.
  destruct (default [] (_clients ex !! c) !! i) as [qid|] eqn:Hi; [|by eexists].
  destruct (unsubscribe qid c ex) as [[] ex'|e ex'] eqn:Hu; [|by eexists].
  apply unsubscribe_Return in Hu as (l & l' & Hl & Hr & _ & ->).
  apply IH. simpl. rewrite lookup_insert_eq. simpl.
  rewrite Hl in Hi, Hlt. simpl in Hi, Hlt.
  apply lookup_lt_Some in Hi. apply list_remove_length in Hr. lia.
Qed.

Lemma disconnect_total c ex : is_Some (disconnect c ex).
Proof.
  unfold disconnect. destruct (_clients ex !! c) as [l|] eqn:Hl; [|by eexists].
  destruct (disconnect_loop_total c (S (length l)) 0 ex) as [r Hr].
  { rewrite Hl. simpl. lia. }
  rewrite Hr. destruct r as [[] ?|]; by eexists.
Qed.

Lemma exec_total (o : op pattern) ex : is_Some (exec o ex).
Proof. destruct o; simpl; [by eexists|apply disconnect_total|by eexists..]. Qed.

(** *** The two maps under the admissible operations *)

Lemma in_by_qid_default ex qid c :
  in_by_qid ex qid c ↔ c ∈ default ∅ (_subscribers ex !! qid).
Proof.
  unfold in_by_qid. destruct (_subscribers ex !! qid) as [s|]; simpl.
  - split; [by intros (? & [= <-] & ?)|eauto].
  - split; [by intros (? & ? & ?)|set_solver].
Qed.

Lemma in_by_client_default ex qid c :
  in_by_client ex qid c ↔ qid ∈ default [] (_clients ex !! c).
Proof.
  unfold in_by_client. destruct (_clients ex !! c) as [l|]; simpl.
  - split; [by intros (? & [= <-] & ?)|eauto].
  - split; [by intros (? & ? & ?)|by intros ?%elem_of_nil].
Qed.

Lemma agree_default ex :
  agree ex ↔
  ∀ qid c, c ∈ default ∅ (_subscribers ex !! qid) ↔
           qid ∈ default [] (_clients ex !! c).
Proof.
  unfold agree. split; intros Ha qid c; specialize (Ha qid c);
    by rewrite ?in_by_qid_default, ?in_by_client_default in *.
Qed.

Lemma consistent_init : consistent (@Exchange.init pattern _ _).
Proof.
  split.
  - apply agree_default. intros qid c. simpl. rewrite !lookup_empty. simpl.
    split; [set_solver|by intros ?%elem_of_nil].
  - intros c l. simpl. by rewrite lookup_empty.
Qed.

Lemma consistent_connect c ex :
  consistent ex → _clients ex !! c = None →
  consistent (state_of (connect c ex)).
Proof.
  intros [Ha Hn] Hc. rewrite agree_default in Ha. split.
  - apply agree_default. intros qid c'. simpl. rewrite Ha.
    rewrite lookup_insert. case_decide as Hd; [subst c'|done].
    rewrite Hc. done.
  - intros c' l. simpl. rewrite lookup_insert. case_decide; [|apply Hn].
    intros [= <-]. constructor.
Qed.

Lemma consistent_subscribe qid c ex :
  consistent ex → c ∉ default ∅ (_subscribers ex !! qid) →
  consistent (state_of (subscribe qid c ex)).
Proof.
  intros [Ha Hn] Hc. unfold subscribe.
  destruct (_clients ex !! c) as [l|] eqn:Hl; [|done]. simpl.
  rewrite agree_default in Ha. split.
  - apply agree_default. intros q' c'. simpl. rewrite !lookup_insert.
    pose proof (Ha q' c') as Hqc. pose proof (Ha qid c') as Hqc'.
    repeat case_decide; subst; simpl; rewrite ?Hl in *; simpl in *;
      rewrite ?elem_of_app, ?elem_of_union, ?list_elem_of_singleton,
        ?elem_of_singleton; naive_solver.
  - intros c' l'. simpl. rewrite lookup_insert. case_decide; [|apply Hn].
    intros [= <-]. subst c'. apply NoDup_app. split_and!.
    + by apply (Hn c).
    + intros x Hx ->%list_elem_of_singleton. apply Hc, Ha. by rewrite Hl.
    + apply NoDup_singleton.
Qed.

Lemma consistent_unsubscribe qid c ex :
  consistent ex → consistent (state_of (unsubscribe qid c ex)).
Proof.
  intros [Ha Hn]. unfold unsubscribe.
  destruct (_clients ex !! c) as [l|] eqn:Hl; [|done].
  rewrite agree_default in Ha.
  destruct (decide _) as [Hc|Hc]; simpl.
  - pose proof Hc as Hq. apply Ha in Hq. rewrite Hl in Hq. simpl in Hq.
    destruct (list_remove_is_Some _ _ Hq) as [l' Hr]. rewrite Hr. simpl.
    destruct (list_remove_NoDup _ _ _ (Hn _ _ Hl) Hr) as [Hnd Hin]. split.
    + apply agree_default. intros q' c'. simpl. rewrite !lookup_insert.
      pose proof (Ha q' c') as Hqc. pose proof (Ha qid c') as Hqc'.
      repeat case_decide; subst; simpl; rewrite ?Hl in *; simpl in *;
        rewrite ?Hin, ?elem_of_difference, ?elem_of_singleton; naive_solver.
    + intros c' l0. simpl. rewrite lookup_insert. case_decide; [|apply Hn].
      by intros [= <-].
  - split; [|done]. apply agree_default. intros q' c'. simpl.
    rewrite lookup_insert. case_decide; [subst q'|apply Ha]. simpl. apply Ha.
Qed.

Lemma consistent_delete c ex :
  consistent ex → _clients ex !! c = Some [] →
  consistent (Exchange.mk (delete c (_clients ex)) (_subscribers ex)).
Proof.
  intros [Ha Hn] Hc. rewrite agree_default in Ha. split.
  - apply agree_default. intros qid c'. simpl. rewrite Ha, lookup_delete.
    case_decide; [subst c'|done]. by rewrite Hc.
  - intros c' l. simpl. rewrite lookup_delete. case_decide; [done|apply Hn].
Qed.

Lemma consistent_disconnect c ex :
  consistent ex → (length (default [] (_clients ex !! c)) ≤ 1)%nat →
  ∃ r, disconnect c ex = Some r ∧ consistent (state_of r).
Proof.
  intros Hc Hlen. unfold disconnect.
  destruct (_clients ex !! c) as [l|] eqn:Hl; [|by eexists]. simpl in Hlen.
  destruct l as [|qid [|??]]; simpl in Hlen; [| |lia].
  - simpl. rewrite Hl. simpl. eexists. split; [done|]. by apply consistent_delete.
  - cbn [length disconnect_loop]. rewrite Hl. simpl.
    pose proof (consistent_unsubscribe qid c ex Hc) as Hu.
    destruct (unsubscribe qid c ex) as [[] ex'|e ex'] eqn:Hun; simpl in Hu.
    + apply unsubscribe_Return in Hun as (l & l' & Hl' & Hr & _ & ->).
      rewrite Hl in Hl'. injection Hl' as <-. simpl in Hr.
      rewrite decide_True in Hr by done. injection Hr as <-.
      simpl. rewrite lookup_insert_eq. simpl.
      eexists. split; [done|].
      apply (consistent_delete c _ Hu). simpl. by rewrite lookup_insert_eq.
    + by eexists.
Qed.

Lemma consistent_exec (o : op pattern) ex :
  consistent ex → admissible o ex = true →
  ∃ r, exec o ex = Some r ∧ consistent (state_of r).
Proof.
  intros Hc Hadm. destruct o as [c|c|qid c|qid c]; simpl in *.
  - apply bool_decide_eq_true in Hadm. eexists. split; [done|].
    by apply consistent_connect.
  - apply bool_decide_eq_true in Hadm. by apply consistent_disconnect.
  - apply bool_decide_eq_true in Hadm. eexists. split; [done|].
    by apply consistent_subscribe.
  - eexists. split; [done|]. by apply consistent_unsubscribe.
Qed.

Lemma consistent_run (ops : list (op pattern)) : ∀ ex,
  consistent ex → admissible_run ops ex = true →
  ∃ ex', run ops ex = Some ex' ∧ consistent ex'.
Proof.
  induction ops as [|o ops IH]; intros ex Hc Hadm; simpl in *; [by eexists|].
  apply andb_true_iff in Hadm as [Ho Hrest].
  destruct (consistent_exec o ex Hc Ho) as (r & Hr & Hcr).
  rewrite Hr in Hrest |- *. by apply IH.
Qed.

(** *** The calls a dispatch makes *)

Section Calls.

Context {W : Type}.
Variable on_message : client -> bytes -> bytes -> W -> outcome W.




Lemma unicast_no_candidate (r : nat) (q message : bytes) ex (w : W) :
  recipients re_match q ex = ∅ →
  dispatch re_match on_message r q message false ex w = ([], Raise IndexError w).
Proof. intros He. unfold dispatch. rewrite He, elements_empty. done. Qed.


End Calls.

End Routing.

(** *** Concrete tables *)


(** C2 fails on the code: a pair subscribed twice and unsubscribed once is
    still in the by-client list and no longer in the by-qid set, so the two
    maps disagree.  [disconnect], which walks the list and removes from the
    sets, then raises [KeyError] out of [unsubscribe] and never reaches the
    deletion of the client. *)
Theorem duplicate_subscribe_breaks_agreement :
  ∃ ex ex',
    run [Connect A1; Subscribe root A1; Subscribe root A1;
         Unsubscribe root A1] Exchange.init = Some ex ∧
    in_by_client ex root A1 ∧ ¬ in_by_qid ex root A1 ∧ ¬ agree ex ∧
    disconnect A1 ex = Some (Raise KeyError ex') ∧
    is_Some (_clients ex' !! A1).
Proof.
  exists (Exchange.mk {[A1 := [root]]} {[root := ∅]}),
         (Exchange.mk {[A1 := [root]]} {[root := ∅]}).
  assert (Hc : in_by_client (Exchange.mk {[A1 := [root]]} {[root := ∅]}) root A1).
  { exists [root]. split; [done|]. by left. }
  assert (Hq : ¬ in_by_qid (Exchange.mk {[A1 := [root]]} {[root := ∅]}) root A1).
  { intros (s & Hs & Hin). simpl in Hs. rewrite lookup_singleton_eq in Hs.
    injection Hs as <-. by apply not_elem_of_empty in Hin. }
  split_and!.
  - compute_done.
  - exact Hc.
  - exact Hq.
  - intros Ha. apply Hq, Ha, Hc.
  - compute_done.
  - by eexists.
Qed.

(** C3 fails on the code: a client that subscribed to "/" and "/queue"
    (as the server-side test client does) and disconnects is gone from the
    by-client map while the subscriber set of "/queue" still holds it.  The
    loop of [disconnect] walks the list that [unsubscribe] shortens, so it
    skips every second entry. *)
Theorem disconnect_skips_subscription :
  ∃ ex ex',
    run [Connect A1; Subscribe root A1; Subscribe queue A1] Exchange.init = Some ex ∧
    disconnect A1 ex = Some (Return tt ex') ∧
    _clients ex' !! A1 = None ∧
    in_by_qid ex' queue A1.
Proof.
  exists (Exchange.mk {[A1 := [root; queue]]} (<[queue := {[A1]}]> {[root := {[A1]}]})),
         (Exchange.mk ∅ (<[queue := {[A1]}]> {[root := ∅]})).
  split_and!.
  - compute_done.
  - compute_done.
  - done.
  - exists {[A1]}. split; [|set_solver]. simpl. by rewrite lookup_insert_eq.
Qed.

(** C4 fails on the code: a unicast dispatch whose candidate set is empty
    (here: nobody subscribed) raises [IndexError] out of [random.choice]
    instead of returning, whatever the clients' [on_message] methods do: no
    [on_message] is called and the state they run on is as it was (the
    table itself is only read). *)
Theorem dispatch_unicast_empty_raises :
  ∀ (W : Type) (on_message : client → bytes → bytes → W → outcome W)
    (r : nat) (w : W),
    dispatch prefix_match on_message r (b "/queue") (b "x") false Exchange.init w
    = ([], Raise IndexError w).
Proof. intros W on_message r w. by apply unicast_no_candidate. Qed.

End ExchangeFacts.

(** ** The in-process participant *)

Module ClientFacts.

Import Exchange Client Examples.

(** C10. A client whose [connected] flag is false: [subscribe],
    [unsubscribe] and [send] return without raising, call no [on_message]
    and leave every exchange and every client's state as it was. *)
Theorem not_connected_noop {pattern : Type} `{Countable pattern}
    (re_match : pattern -> bytes -> bool)
    (on_message_of : client -> bytes -> bytes -> world pattern
                     -> outcome (world pattern))
    (w : world pattern)
    (self : client) (qid : Qid pattern) (q message : bytes)
    (multicast : bool) (r : nat) :
  self ∉ connected w →
  subscribe self qid w = Return tt w ∧
  unsubscribe self qid w = Return tt w ∧
  send re_match on_message_of r self q message multicast w = ([], Return tt w).
Proof.
  intros Hc. unfold subscribe, unsubscribe, send.
  by rewrite !decide_False by done.
Qed.

Lemma not_connected_noop_witness :
(2%nat ∉ connected two_clients) ∧
  subscribe 2%nat (Literal (b "/")) two_clients = Return tt two_clients ∧
  unsubscribe 2%nat (Literal (b "/")) two_clients = Return tt two_clients ∧
  send prefix_match Client.on_message 0 2%nat (b "/") (b "hi") true two_clients
    = ([], Return tt two_clients).
Proof.
  assert (Hc : 2%nat ∉ connected two_clients) by compute_done.
  split; [exact Hc|].
  exact (not_connected_noop prefix_match Client.on_message two_clients 2%nat
           (Literal (b "/")) (b "/") (b "hi") true 0%nat Hc).
Defined.

End ClientFacts.

(** ** The stream *)

Module IOStreamFacts.

Import IOStream Examples.

Section Stream.

Context {cb : Type}.
Variable call : cb -> list bytes -> IOStream.t cb -> outcome (IOStream.t cb).

Implicit Types (s : IOStream.t cb) (x : bytes) (acc buf : list bytes).

Lemma len_app {A} (l k : list A) : len (l ++ k) = len l + len k.
Proof. unfold len. rewrite length_app. lia. Qed.

Lemma len_nonneg {A} (l : list A) : 0 ≤ len l.
Proof. unfold len. lia. Qed.

Lemma concat_snoc acc x : concat (acc ++ [x]) = concat acc ++ x.
Proof. rewrite concat_app. simpl. by rewrite app_nil_r. Qed.

Lemma consume_loop_spec (loc : Z) : ∀ buf acc (n : Z),
  n = len (concat acc) →
  loc ≤ n + len (concat buf) →
  n - len (List.last acc []) < loc →
  ∃ n' acc' buf',
    consume_loop loc n acc buf = Some (n', acc', buf') ∧
    acc' ++ buf' = acc ++ buf ∧ n' = len (concat acc') ∧ loc ≤ n' ∧
    n' - len (List.last acc' []) < loc.
Proof.
  induction buf as [|x buf IH]; intros acc n Hn Hle Hlast; simpl in *.
  - change (len []) with 0 in Hle.
    destruct (Z.ltb_spec n loc); [lia|]. by exists n, acc, [].
  - rewrite len_app in Hle. destruct (Z.ltb_spec n loc).
    + destruct (IH (acc ++ [x]) (n + len x)) as (n' & acc' & buf' & Hc & Happ & ?).
      * rewrite concat_snoc, len_app. lia.
      * lia.
      * rewrite List.last_last. lia.
      * exists n', acc', buf'. split; [done|]. split; [|done].
        by rewrite Happ, <- app_assoc.
    + by exists n, acc, (x :: buf).
Qed.

Lemma consume_spec s (loc : Z) :
  1 ≤ loc ≤ len (buffered s) →
  ∃ buf',
    _consume loc s
    = Return (take (Z.to_nat loc) (buffered s))
        (set_read_buffer_size (_read_buffer_size s - loc) (set_read_buffer buf' s)) ∧
    concat buf' = drop (Z.to_nat loc) (buffered s).
Proof.
  unfold buffered, _consume. intros [Hlo Hhi].
  destruct (_read_buffer s) as [|x buf]; [simpl in Hhi; change (len []) with 0 in Hhi; lia|].
  simpl in Hhi |- *. rewrite len_app in Hhi.
  assert (Hnat : Z.to_nat (len x) = length x) by (unfold len; lia).
  destruct (Z.ltb_spec loc (len x)) as [Hlt|Hge].
  - exists (slice_from loc x :: buf). unfold slice_to, slice_from.
    rewrite (proj2 (Z.leb_le 0 loc)) by lia.
    assert (Hl : (Z.to_nat loc ≤ length x)%nat) by (unfold len in Hlt; lia).
    split.
    + rewrite take_app_le by done. do 3 f_equal.
      unfold len. rewrite length_take. lia.
    + simpl. rewrite drop_app_le by done. done.
  - destruct (Z.eqb_spec (len x) loc) as [Heq|Hne].
    + exists buf. split.
      * rewrite take_app_length' by lia. by rewrite Heq.
      * rewrite drop_app_length' by lia. done.
    + destruct (consume_loop_spec loc buf [x] (len x))
        as (n' & acc' & buf' & -> & Happ & Hn' & Hle' & Hlast').
      { simpl. by rewrite app_nil_r. }
      { lia. }
      { simpl. lia. }
      assert (Hcat : x ++ concat buf = concat acc' ++ concat buf').
      { by rewrite <- concat_app, Happ. }
      rewrite Hcat.
      assert (Hnnil : acc' ≠ []).
      { intros ->. simpl in Hn'. change (len []) with 0 in Hn'. lia. }
      destruct (Z.ltb_spec loc n') as [Hlt'|Hge'].
      * destruct (List.exists_last Hnnil) as (rl & x' & Hacc).
        rewrite Hacc in *. rewrite List.last_last in *.
        rewrite List.removelast_last.
        rewrite concat_snoc in *. rewrite len_app in Hn'.
        set (i := len x' - (n' - loc)).
        assert (Hi : 0 < i < len x') by (unfold i; lia).
        exists (slice_from i x' :: buf'). unfold slice_to, slice_from.
        rewrite (proj2 (Z.leb_le 0 i)) by lia.
        assert (Hloc : Z.to_nat loc = (length (concat rl) + Z.to_nat i)%nat)
          by (unfold i, len in *; lia).
        assert (Hix : (Z.to_nat i ≤ length x')%nat) by (unfold len in Hi; lia).
        split.
        -- rewrite concat_snoc. rewrite Hloc, <- !app_assoc.
           rewrite take_app_add, take_app_le by done.
           do 3 f_equal. rewrite len_app. unfold len.
           rewrite length_take. unfold i, len in *. lia.
        -- simpl. rewrite concat_snoc, Hloc, <- !app_assoc.
           rewrite drop_app_add, drop_app_le by done. done.
      * exists buf'.
        assert (Hl : Z.to_nat loc = length (concat acc')) by (unfold len in *; lia).
        split.
        -- rewrite take_app_length' by done. do 3 f_equal. lia.
        -- by rewrite drop_app_length'.
Qed.

(** *** [close] and [_run_callback] *)

Lemma close_run_callback_closed (Hcall : keeps_closed call) (fuel : nat) :
  (∀ s r, close call fuel s = Some r → socket (state_of r) = None) ∧
  (∀ c args s r, socket s = None →
     _run_callback call fuel c args s = Some r → socket (state_of r) = None).
Proof.
  induction fuel as [|fuel [IHc IHr]]; [done|]. split.
  - intros [sock ? ? ? ? ? ? ? ? [c|] ? ?] r; destruct sock; simpl;
      try (by intros [= <-]).
    by apply IHr.
  - intros c args s r Hs. simpl. specialize (Hcall c args s Hs).
    destruct (call c args s) as [[] s'|e s']; simpl in Hcall.
    + by intros [= <-].
    + destruct (close call fuel s') as [[[] s''|e' s'']|] eqn:Hcl; [| |done].
      * intros [= <-]. by apply (IHc _ _ Hcl).
      * intros [= <-]. by apply (IHc _ _ Hcl).
Qed.

(** The guarded path: a callback that raises under [_run_callback] leaves
    the stream closed when the exception goes on. *)
Lemma run_callback_raise_closes (Hcall : keeps_closed call) fuel c args s e s' :
  _run_callback call fuel c args s = Some (Raise e s') → socket s' = None.
Proof.
  destruct fuel as [|fuel]; [done|]. simpl.
  destruct (call c args s) as [[] s1|e1 s1]; [done|].
  destruct (close call fuel s1) as [[[] s2|e2 s2]|] eqn:Hcl; [| |done].
  - intros [= _ <-].
    by apply (proj1 (close_run_callback_closed Hcall fuel) _ _ Hcl).
  - intros [= _ <-].
    by apply (proj1 (close_run_callback_closed Hcall fuel) _ _ Hcl).
Qed.

Lemma close_closed_noop fuel s :
  socket s = None → close call (S fuel) s = Some (Return tt s).
Proof. intros Hs. simpl. by rewrite Hs. Qed.

Lemma close_unfold fuel s :
  close call (S fuel) s =
  match socket s with
  | None => Some (Return tt s)
  | Some _ =>
      let s1 := set_socket None (set_handler None s) in
      match _close_callback s1 with
      | None => Some (Return tt s1)
      | Some c => _run_callback call fuel c [] s1
      end
  end.
Proof. reflexivity. Qed.

Lemma run_callback_unfold fuel c args s :
  _run_callback call (S fuel) c args s =
  match call c args s with
  | Return _ s' => Some (Return tt s')
  | Raise e s' =>
      match close call fuel s' with
      | Some (Return _ s'') => Some (Raise e s'')
      | r => r
      end
  end.
Proof. reflexivity. Qed.

Lemma close_total (Hcall : keeps_closed call) fuel s :
  is_Some (close call (S (S (S fuel))) s).
Proof.
  rewrite close_unfold. destruct (socket s); [|by eexists]. cbv zeta.
  set (s1 := set_socket None (set_handler None s)).
  destruct (_close_callback s1) as [c|]; [|by eexists].
  rewrite run_callback_unfold.
  pose proof (Hcall c [] s1 eq_refl) as Hs1.
  destruct (call c [] s1) as [[] s2|e s2]; [by eexists|].
  simpl in Hs1. rewrite (close_closed_noop fuel s2 Hs1). by eexists.
Qed.

Lemma run_callback_total (Hcall : keeps_closed call) fuel c args s :
  is_Some (_run_callback call (S (S (S (S fuel)))) c args s).
Proof.
  rewrite run_callback_unfold.
  destruct (call c args s) as [[] s1|e s1]; [by eexists|].
  destruct (close_total Hcall fuel s1) as [r Hr]. rewrite Hr.
  destruct r as [[] ?|]; by eexists.
Qed.

(** C7. A read buffer that holds at least [n] bytes ([n ≥ 1]), on a stream
    with no read in flight and whose running total is the size of its
    chunks: [read_bytes n completion] is one call of the completion, made
    at once, on exactly the first [n] buffered bytes; the stream it runs
    on keeps the remaining bytes in order, its [_read_buffer_size] is [n]
    less, and nothing else changed. *)
Theorem read_bytes_buffered s (n : Z) (callback : cb) :
  _read_callback s = None →
  _read_buffer_size s = len (buffered s) →
  1 ≤ n ≤ len (buffered s) →
  ∃ s',
    read_bytes call n callback s
    = call callback [take (Z.to_nat n) (buffered s)] s' ∧
    buffered s' = drop (Z.to_nat n) (buffered s) ∧
    _read_buffer_size s' = _read_buffer_size s - n ∧
    _read_buffer_size s' = len (buffered s') ∧
    s' = set_read_buffer_size (_read_buffer_size s - n)
           (set_read_buffer (_read_buffer s') s).
Proof.
  intros Hcb Hsize Hn. destruct (consume_spec s n Hn) as (buf' & Hc & Hbuf).
  exists (set_read_buffer_size (_read_buffer_size s - n) (set_read_buffer buf' s)).
  unfold read_bytes. rewrite Hcb, Hc.
  rewrite (proj2 (Z.leb_le n (_read_buffer_size s))) by lia.
  split_and!; try done.
  unfold buffered at 1. simpl. rewrite Hbuf, Hsize. unfold len.
  rewrite length_drop. unfold len in Hn. lia.
Qed.

End Stream.

Lemma read_bytes_buffered_witness :
  _read_callback three_chunks = None ∧
  _read_buffer_size three_chunks = len (buffered three_chunks) ∧
  1 ≤ 4 ≤ len (buffered three_chunks) ∧
  ∃ s',
    read_bytes quiet 4 0%nat three_chunks
    = quiet 0%nat [take (Z.to_nat 4) (buffered three_chunks)] s' ∧
    buffered s' = drop (Z.to_nat 4) (buffered three_chunks) ∧
    _read_buffer_size s' = _read_buffer_size three_chunks - 4 ∧
    _read_buffer_size s' = len (buffered s') ∧
    s' = set_read_buffer_size (_read_buffer_size three_chunks - 4)
           (set_read_buffer (_read_buffer s') three_chunks).
Proof.
  assert (H1 : _read_callback three_chunks = None) by reflexivity.
  assert (H2 : _read_buffer_size three_chunks = len (buffered three_chunks))
    by reflexivity.
  assert (H3 : 1 ≤ 4 ≤ len (buffered three_chunks)) by (vm_compute; split; congruence).
  split; [exact H1|]. split; [exact H2|]. split; [exact H3|].
  exact (read_bytes_buffered quiet three_chunks 4 0%nat H1 H2 H3).
Defined.

Example read_bytes_three_chunks :
  read_bytes quiet 4 0%nat three_chunks
  = Return tt (set_read_buffer_size 7 (set_read_buffer [b "o"; b " world"] three_chunks)).
Proof. compute_done. Qed.

(** C8 fails on the code: a completion that [read_bytes] calls at once,
    because enough bytes are buffered, is called outside [_run_callback];
    when it raises, the exception leaves [read_bytes] with the socket
    still open.  (The guarded paths do close: [run_callback_raise_closes].) *)
Theorem read_bytes_raise_leaves_socket_open :
  ∃ s' : IOStream.t nat,
    read_bytes raising 4 0%nat three_chunks = Raise UserError s' ∧
    socket s' = Some 7.
Proof.
  exists (set_read_buffer_size 7 (set_read_buffer [b "o"; b " world"] three_chunks)).
  split; [compute_done|done].
Qed.

(** C9 fails on the code: [_handle_write] pops the head of the write
    buffer before it calls [send]; when [send] fails with [EAGAIN] the
    entry is not put back.  The three queued bytes and their completion are
    gone from the buffer while [_write_buffer_size] still counts them. *)
Theorem handle_write_eagain_drops_head :
  ∀ (call : nat → list bytes → IOStream.t nat → outcome (IOStream.t nat)) (fuel : nat),
    _write_buffer one_write = [(b "abc", Some 0%nat)] ∧
    _write_buffer_size one_write = 3 ∧
    _handle_write call fuel (SendError EAGAIN) one_write
    = Some (Return tt (set_write_buffer [] one_write)).
Proof. intros call fuel. split_and!; compute_done. Qed.

End IOStreamFacts.

(** ** The egress scheduler *)

Module ConnectionFacts.
Import Connection Examples.

(** C5 fails on the code: [on_message] appends to the right end of the
    qid's deque and [_recv] pops from the right end too.  After
    [on_message(q, m1)] and [on_message(q, m2)], the first [_recv] writes
    the frame of [m2] (header, qid, body) while [m1] still waits in the
    deque; the frame of [m1] is written only after that write completed. *)
Theorem recv_pops_newest_first :
  ∀ (call : closure → list bytes → IOStream.t closure → outcome (IOStream.t closure))
    (fuel : nat),
    (fun st => (IOStream._write_buffer (_stream st), deque_of 0 st))
      <$> run call fuel [OnMessage q m1; OnMessage q m2; RunCallback] (init call 7)
    = Some ([([xa0; x10; x00; x02], None); (q, None);
             (m2, Some (on_send_complete_cb q 0))], [m1]) ∧
    (fun st => IOStream._write_buffer (_stream st))
      <$> run call fuel [OnMessage q m1; OnMessage q m2; RunCallback;
                         SendComplete; RunCallback] (init call 7)
    = Some [([xa0; x10; x00; x02], None); (q, None);
            (m1, Some (on_send_complete_cb q 0))].
Proof. intros call fuel. split; compute_done. Qed.

(** C6 fails on the code: [_recv] leaves the emptied deque in [_mq] while
    its frame is being written, so an [on_message] for the same qid at that
    moment sees a length of 1 and appends the qid to [_fq] although it is
    being written, and [on_send_complete] appends it again: the qid is in
    [_fq] twice.  The stale entry later makes [_recv] pop from an empty
    deque ([IndexError]). *)
Theorem fq_holds_qid_twice :
  ∀ (call : closure → list bytes → IOStream.t closure → outcome (IOStream.t closure))
    (fuel : nat),
    (fun st => (_fq st, _recving st, bodies st))
      <$> run call fuel [OnMessage q m1; RunCallback; OnMessage q m2] (init call 7)
    = Some ([(q, 0%nat)], true, [m1]) ∧
    _fq <$> run call fuel [OnMessage q m1; RunCallback; OnMessage q m2; SendComplete]
              (init call 7)
    = Some [(q, 0%nat); (q, 0%nat)] ∧
    raised <$> (run call fuel [OnMessage q m1; RunCallback; OnMessage q m2; SendComplete;
                               RunCallback; SendComplete] (init call 7)
                ≫= step call fuel RunCallback)
    = Some (Some IndexError).
Proof. intros call fuel. split_and!; compute_done. Qed.
End ConnectionFacts.

(** ** The frame header *)

Module WireFacts.

Import Connection Wire.

Lemma land_mul_pow2_low (a n m : Z) :
  0 ≤ n → 0 ≤ m < 2 ^ n → Z.land (a * 2 ^ n) m = 0.
Proof.
  intros Hn Hm. apply Z.bits_inj'. intros i Hi.
  rewrite Z.land_spec, Z.bits_0.
  destruct (Z.lt_ge_cases i n).
  - by rewrite Z.mul_pow2_bits_low.
  - rewrite <- (Z.mod_small m (2 ^ n)) by done.
    rewrite Z.mod_pow2_bits_high by lia. apply andb_false_r.
Qed.

Lemma lor_add_low (a n m : Z) :
  0 ≤ n → 0 ≤ m < 2 ^ n → Z.lor (a * 2 ^ n) m = a * 2 ^ n + m.
Proof.
  intros Hn Hm. pose proof (land_mul_pow2_low a n m Hn Hm) as Hl.
  by rewrite <- Z.lxor_lor, <- Z.add_nocarry_lxor.
Qed.

Lemma field_of (h n k : Z) :
  0 ≤ n → 0 ≤ k → Z.land h (Z.ones k ≪ n) ≫ n = (h / 2 ^ n) `mod` 2 ^ k.
Proof.
  intros Hn Hk. rewrite Z.shiftr_land, Z.shiftr_shiftl_l by done.
  rewrite Z.sub_diag, Z.shiftl_0_r, Z.land_ones, Z.shiftr_div_pow2 by done.
  done.
Qed.

Lemma op_of_div h : op_of h = h / 2 ^ 29.
Proof. unfold op_of. by rewrite Z.shiftr_div_pow2. Qed.

Lemma flag_of_div h : flag_of h = (h / 2 ^ 28) `mod` 2.
Proof. unfold flag_of. change 0x10000000 with (Z.ones 1 ≪ 28). by rewrite field_of. Qed.

Lemma qid_length_of_div h : qid_length_of h = (h / 2 ^ 20) `mod` 2 ^ 8.
Proof. unfold qid_length_of. change 0x0FF00000 with (Z.ones 8 ≪ 20). by rewrite field_of. Qed.

Lemma message_length_of_mod h : message_length_of h = h `mod` 2 ^ 20.
Proof. unfold message_length_of. change 0x000FFFFF with (Z.ones 20). by rewrite Z.land_ones. Qed.

(** A header whose fields fit their widths is the sum of its fields. *)
Lemma header_sum (op f q m : Z) :
  0 ≤ f < 2 → 0 ≤ q < 2 ^ 8 → 0 ≤ m < 2 ^ 20 →
  Z.lor (Z.lor (Z.lor (op ≪ 29) (f ≪ 28)) (q ≪ 20)) m
  = op * 2 ^ 29 + f * 2 ^ 28 + q * 2 ^ 20 + m.
Proof.
  intros Hf Hq Hm. rewrite !Z.shiftl_mul_pow2 by done.
  rewrite (lor_add_low op 29) by lia.
  replace (op * 2 ^ 29 + f * 2 ^ 28) with ((2 * op + f) * 2 ^ 28) by lia.
  rewrite (lor_add_low _ 28) by lia.
  replace ((2 * op + f) * 2 ^ 28 + q * 2 ^ 20)
    with (((2 * op + f) * 2 ^ 8 + q) * 2 ^ 20) by lia.
  rewrite (lor_add_low _ 20) by lia. lia.
Qed.

Lemma fields_of_sum (op f q m : Z) :
  0 ≤ op → 0 ≤ f < 2 → 0 ≤ q < 2 ^ 8 → 0 ≤ m < 2 ^ 20 →
  let h := op * 2 ^ 29 + f * 2 ^ 28 + q * 2 ^ 20 + m in
  op_of h = op ∧ flag_of h = f ∧ qid_length_of h = q ∧ message_length_of h = m.
Proof.
  intros Hop Hf Hq Hm h.
  rewrite op_of_div, flag_of_div, qid_length_of_div, message_length_of_mod.
  unfold h. split_and!; Z.div_mod_to_equations; lia.
Qed.

Lemma byte_of_Z_val (z : Z) : Z.of_N (Byte.to_N (byte_of_Z z)) = z `mod` 256.
Proof.
  unfold byte_of_Z. pose proof (Z.mod_pos_bound z 256 eq_refl) as Hb.
  destruct (Byte.of_N (Z.to_N (z `mod` 256))) as [y|] eqn:E; simpl.
  - apply Byte.to_of_N in E. rewrite E. lia.
  - apply Byte.of_N_None_iff in E. lia.
Qed.

(** [struct.unpack] undoes [struct.pack]. *)
Lemma unpack_pack (v : Z) :
  0 ≤ v < 2 ^ 32 →
  ∃ hb, pack_I v = Some hb ∧ len hb = 4 ∧ unpack_I hb = Some v.
Proof.
  intros Hv. unfold pack_I.
  rewrite (proj2 (Z.leb_le 0 v)), (proj2 (Z.ltb_lt v (2 ^ 32))) by lia. simpl.
  eexists. split; [done|]. split; [done|]. unfold unpack_I. f_equal.
  rewrite !byte_of_Z_val, !Z.shiftr_div_pow2, !Z.shiftl_mul_pow2 by lia.
  rewrite (lor_add_low _ 24) by (Z.div_mod_to_equations; lia).
  replace (((v / 2 ^ 24) `mod` 256) * 2 ^ 24 + ((v / 2 ^ 16) `mod` 256) * 2 ^ 16)
    with ((((v / 2 ^ 24) `mod` 256) * 2 ^ 8 + (v / 2 ^ 16) `mod` 256) * 2 ^ 16) by lia.
  rewrite (lor_add_low _ 16) by (Z.div_mod_to_equations; lia).
  replace ((((v / 2 ^ 24) `mod` 256) * 2 ^ 8 + (v / 2 ^ 16) `mod` 256) * 2 ^ 16
           + ((v / 2 ^ 8) `mod` 256) * 2 ^ 8)
    with (((((v / 2 ^ 24) `mod` 256) * 2 ^ 8 + (v / 2 ^ 16) `mod` 256) * 2 ^ 8
           + (v / 2 ^ 8) `mod` 256) * 2 ^ 8) by lia.
  rewrite (lor_add_low _ 8) by (Z.div_mod_to_equations; lia).
  Z.div_mod_to_equations. lia.
Qed.

Lemma send_header_sum (multicast : bool) (q m : Z) :
  0 ≤ q ≤ 255 → 0 ≤ m < 2 ^ 20 →
  send_header multicast q m
  = OP_SEND * 2 ^ 29 + (if multicast then 1 else 0) * 2 ^ 28 + q * 2 ^ 20 + m.
Proof.
  intros Hq Hm. unfold send_header. apply header_sum; [|lia|lia].
  destruct multicast; lia.
Qed.

(** X1. The header [SocketClient._send] builds for a qid of at most 255
    bytes and a message shorter than 2^20 bytes packs into four bytes, and
    the fields [Connection._on_header] reads off these bytes are the op
    code SEND, the multicast flag and the two lengths. *)
Theorem send_header_roundtrip (multicast : bool) (q m : Z) :
  0 ≤ q ≤ 255 → 0 ≤ m < 2 ^ 20 →
  ∃ hb, pack_I (send_header multicast q m) = Some hb ∧ len hb = 4 ∧
        ∃ h, unpack_I hb = Some h ∧
             op_of h = OP_SEND ∧
             flag_of h = (if multicast then 1 else 0) ∧
             qid_length_of h = q ∧ message_length_of h = m.
Proof.
  intros Hq Hm. rewrite send_header_sum by done.
  assert (Hf : 0 ≤ (if multicast then 1 else 0) < 2) by (destruct multicast; lia).
  destruct (unpack_pack (OP_SEND * 2 ^ 29 + (if multicast then 1 else 0) * 2 ^ 28
                         + q * 2 ^ 20 + m)) as (hb & Hp & Hl & Hu).
  { unfold OP_SEND. lia. }
  exists hb. split; [done|]. split; [done|]. eexists. split; [done|].
  apply fields_of_sum; unfold OP_SEND; lia.
Qed.

(** X2. The header [SocketClient.subscribe] builds decodes to the op code
    SUBSCRIBE, the pattern flag, the qid length and a message length of
    zero (what the receiving side asserts). *)
Theorem subscribe_header_roundtrip (x q : Z) :
  0 ≤ x ≤ 1 → 0 ≤ q ≤ 255 →
  ∃ hb, pack_I (subscribe_header x q) = Some hb ∧ len hb = 4 ∧
        ∃ h, unpack_I hb = Some h ∧
             op_of h = OP_SUBSCRIBE ∧ flag_of h = x ∧
             qid_length_of h = q ∧ message_length_of h = 0.
Proof.
  intros Hx Hq.
  assert (Hs : subscribe_header x q
               = OP_SUBSCRIBE * 2 ^ 29 + x * 2 ^ 28 + q * 2 ^ 20 + 0).
  { unfold subscribe_header. rewrite <- header_sum by lia. by rewrite Z.lor_0_r. }
  rewrite Hs.
  destruct (unpack_pack (OP_SUBSCRIBE * 2 ^ 29 + x * 2 ^ 28 + q * 2 ^ 20 + 0))
    as (hb & Hp & Hl & Hu).
  { unfold OP_SUBSCRIBE. lia. }
  exists hb. split; [done|]. split; [done|]. eexists. split; [done|].
  apply fields_of_sum; unfold OP_SUBSCRIBE; lia.
Qed.

(** X3. The header [Connection._recv] builds decodes, with the fields
    [SocketClient._on_header] reads, to the op code MESSAGE and the two
    lengths. *)
Theorem message_header_roundtrip (q m : Z) :
  0 ≤ q ≤ 255 → 0 ≤ m < 2 ^ 20 →
  ∃ hb, pack_I (message_header q m) = Some hb ∧ len hb = 4 ∧
        ∃ h, unpack_I hb = Some h ∧
             op_of h = OP_MESSAGE ∧
             qid_length_of h = q ∧ message_length_of h = m.
Proof.
  intros Hq Hm.
  assert (Hs : message_header q m
               = OP_MESSAGE * 2 ^ 29 + 0 * 2 ^ 28 + q * 2 ^ 20 + m).
  { unfold message_header. rewrite <- header_sum by lia.
    by rewrite Z.shiftl_0_l, Z.lor_0_r. }
  rewrite Hs.
  destruct (unpack_pack (OP_MESSAGE * 2 ^ 29 + 0 * 2 ^ 28 + q * 2 ^ 20 + m))
    as (hb & Hp & Hl & Hu).
  { unfold OP_MESSAGE. lia. }
  exists hb. split; [done|]. split; [done|]. eexists. split; [done|].
  destruct (fields_of_sum OP_MESSAGE 0 q m) as (? & ? & ? & ?);
    unfold OP_MESSAGE; try lia. done.
Qed.

Lemma shiftl_low_bits (a n : Z) : 20 ≤ n → Z.land (a ≪ n) (Z.ones 20) = 0.
Proof.
  intros Hn. rewrite Z.land_ones, Z.shiftl_mul_pow2 by lia.
  replace n with ((n - 20) + 20) by lia. rewrite Z.pow_add_r by lia.
  rewrite Z.mul_assoc. apply Z_mod_mult.
Qed.

(** X4. The message length a SEND header announces is the real length
    modulo 2^20: from 2^20 bytes on the header announces less than the
    message holds. *)
Theorem send_header_length_wraps (multicast : bool) (q m : Z) :
  0 ≤ m →
  message_length_of (send_header multicast q m) = m `mod` 2 ^ 20 ∧
  (2 ^ 20 ≤ m → message_length_of (send_header multicast q m) < m).
Proof.
  intros Hm.
  assert (He : message_length_of (send_header multicast q m) = m `mod` 2 ^ 20).
  { unfold message_length_of, send_header. change 0x000FFFFF with (Z.ones 20).
    rewrite !Z.land_lor_distr_l, !shiftl_low_bits by lia.
    by rewrite Z.land_ones. }
  split; [done|]. intros Hbig. rewrite He.
  pose proof (Z.mod_pos_bound m (2 ^ 20) eq_refl). lia.
Qed.

End WireFacts.

(** ** The stream: writing and closing *)

Module StreamWriteFacts.
Import IOStream IOStreamFacts.
Section Stream.

Context {cb : Type}.
Variable call : cb -> list bytes -> IOStream.t cb -> outcome (IOStream.t cb).
Implicit Types (s : IOStream.t cb).

Lemma land_lor_same (a b : Z) : Z.land (Z.lor a b) b = b.
Proof.
  apply Z.bits_inj'. intros i _. rewrite Z.land_spec, Z.lor_spec.
  destruct (Z.testbit a i), (Z.testbit b i); done.
Qed.

(** What [write] does on an open stream. *)
Lemma write_open s (data : bytes) (callback : option cb) :
  socket s ≠ None →
  ∃ s',
    write data callback s = Return tt s' ∧
    _write_buffer s' = _write_buffer s ++ [(data, callback)] ∧
    _write_buffer_size s' = _write_buffer_size s + len data ∧
    Z.land (_state s') WRITE = WRITE ∧
    handler s' = (if Z.land (_state s) WRITE =? 0 then Some (_state s') else handler s) ∧
    s' = set_handler (handler s') (set_state (_state s')
           (set_write_buffer_size (_write_buffer_size s')
              (set_write_buffer (_write_buffer s') s))).
Proof.
  destruct s as [[fd|] ? ? ? ? ? ? ? ? ? st ?]; simpl; [|done]. intros _.
  unfold write, _check_closed, _add_io_state, update_handler; simpl.
  destruct (Z.land st WRITE =? 0) eqn:Hw; simpl.
  - eexists. split; [done|]. simpl. split_and!; try done. apply land_lor_same.
  - eexists. split; [done|]. simpl. split_and!; try done.
    apply Z.eqb_neq in Hw.
    (* WRITE is a single bit *)
    apply Z.bits_inj'. intros i Hi. rewrite Z.land_spec.
    destruct (Z.testbit WRITE i) eqn:Hb; [|apply andb_false_r].
    rewrite andb_true_r. destruct (Z.testbit st i) eqn:Hs; [done|].
    exfalso. apply Hw. apply Z.bits_inj'. intros j Hj.
    rewrite Z.land_spec, Z.bits_0.
    destruct (Z.eq_dec j 2) as [->|Hne].
    + assert (i = 2) as ->.
      { destruct (Z.eq_dec i 2); [done|]. exfalso.
        change WRITE with (2 ^ 2) in Hb. rewrite Z.pow2_bits_false in Hb by lia. done. }
      by rewrite Hs.
    + change WRITE with (2 ^ 2). rewrite (Z.pow2_bits_false 2 j) by lia.
      apply andb_false_r.
Qed.

Lemma write_closed s (data : bytes) (callback : option cb) :
  socket s = None → write data callback s = Raise IOError s.
Proof. intros Hs. unfold write, _check_closed. by rewrite Hs. Qed.

(** X8. [write] on an open stream queues the data with its completion
    behind what is already queued, adds its length to [_write_buffer_size]
    and leaves WRITE armed; nothing else of the stream changes.  On a
    closed stream it raises [IOError] and changes nothing. *)
Theorem write_appends s (data : bytes) (callback : option cb) :
  match socket s with
  | None => write data callback s = Raise IOError s
  | Some _ =>
      ∃ s',
        write data callback s = Return tt s' ∧
        _write_buffer s' = _write_buffer s ++ [(data, callback)] ∧
        queued s' = queued s ++ data ∧
        _write_buffer_size s' = _write_buffer_size s + len data ∧
        Z.land (_state s') WRITE = WRITE ∧
        s' = set_handler (handler s') (set_state (_state s')
               (set_write_buffer_size (_write_buffer_size s')
                  (set_write_buffer (_write_buffer s') s)))
  end.
Proof.
  destruct (socket s) as [fd|] eqn:Hs; [|by apply write_closed].
  destruct (write_open s data callback) as (s' & Hw & Hb & Hz & Hst & _ & Heq);
    [by rewrite Hs|].
  exists s'. split_and!; try done.
  unfold queued. rewrite Hb, fmap_app, concat_app. simpl. by rewrite app_nil_r.
Qed.

Lemma rearm_open s :
  socket s ≠ None →
  ∃ s',
    (if 0 <? _write_buffer_size s
     then _add_io_state WRITE s else _remove_io_state WRITE s) = Return tt s' ∧
    s' = set_handler (handler s') (set_state (_state s') s).
Proof.
  destruct s as [[fd|] ? ? ? ? ? ? ? ? ? st ?]; simpl; [|done]. intros _.
  unfold _add_io_state, _remove_io_state, update_handler. simpl.
  destruct (0 <? _); destruct (Z.land st WRITE =? 0); simpl; by eexists.
Qed.

(** X9. [_handle_write] when the socket took [n] bytes of the head entry
    (0 ≤ n ≤ its length): the queue loses exactly its first [n] bytes and
    [_write_buffer_size] goes down by [n]; a part of the entry that was not
    sent stays at the head with the same completion, and the completion
    runs (under [_run_callback]) exactly when the entry was sent whole. *)
Theorem handle_write_sent s (x : bytes) (c : option cb) rest (n : Z) (fuel : nat) :
  socket s ≠ None → _write_buffer s = (x, c) :: rest →
  _write_buffer_size s ≠ 0 → 0 ≤ n ≤ len x →
  ∃ s',
    _handle_write call fuel (Sent n) s
    = (if n <? len x then Some (Return tt s')
       else match c with
            | Some k => _run_callback call fuel k [] s'
            | None => Some (Return tt s')
            end) ∧
    _write_buffer s' = (if n <? len x then (drop (Z.to_nat n) x, c) :: rest else rest) ∧
    queued s' = drop (Z.to_nat n) (queued s) ∧
    _write_buffer_size s' = _write_buffer_size s - n ∧
    socket s' = socket s ∧
    _read_buffer s' = _read_buffer s ∧ _read_callback s' = _read_callback s.
Proof.
  intros Hs Hb Hz Hn. unfold _handle_write, queued.
  rewrite (proj2 (Z.eqb_neq _ 0)) by done. rewrite Hb.
  destruct (socket s) as [fd|] eqn:Hsock; [|done]. simpl.
  rewrite Hsock. unfold handle_write_rearm.
  destruct (Z.ltb_spec n (len x)) as [Hlt|Hge].
  - match goal with |- context [if 0 <? _write_buffer_size ?s1 then _ else _] =>
      destruct (rearm_open s1) as (s' & Hr & Heq); [simpl; by rewrite Hsock|]
    end.
    rewrite Hr. exists s'. rewrite Heq. simpl.
    unfold slice_from. rewrite (proj2 (Z.leb_le 0 n)) by lia.
    split_and!; try done.
    rewrite drop_app_le by (unfold len in *; lia). done.
  - match goal with |- context [if 0 <? _write_buffer_size ?s1 then _ else _] =>
      destruct (rearm_open s1) as (s' & Hr & Heq); [simpl; by rewrite Hsock|]
    end.
    rewrite Hr. exists s'. split; [done|]. rewrite Heq. simpl. split_and!; try done.
    rewrite drop_app_length'; [done|]. unfold len in *. lia.
Qed.

(** X10. When callbacks cannot reopen a stream, [close] returns or raises
    with the stream closed, whatever the close callback does, and a second
    [close] does nothing. *)
Theorem close_closes s (fuel fuel' : nat) :
  keeps_closed call →
  ∃ r, close call (S (S (S fuel))) s = Some r ∧
       socket (state_of r) = None ∧
       close call (S fuel') (state_of r) = Some (Return tt (state_of r)).
Proof.
  intros Hcall. destruct (close_total call Hcall fuel s) as [r Hr].
  exists r. split; [done|].
  assert (Hs : socket (state_of r) = None)
    by apply (proj1 (close_run_callback_closed call Hcall _) _ _ Hr).
  split; [done|]. by apply close_closed_noop.
Qed.

End Stream.

End StreamWriteFacts.

(** ** The stream: reading and events *)

Module StreamReadFacts.
Import IOStream IOStreamFacts.

Section Stream.
Context {cb : Type}.
Variable call : cb -> list bytes -> IOStream.t cb -> outcome (IOStream.t cb).
Implicit Types (s : IOStream.t cb).

(** X11. [read_bytes n callback] with fewer than [n] bytes buffered, on an
    open stream with no read in flight: no callback runs; the request is
    stored, READ is armed, and buffers and socket are untouched. *)
Theorem read_bytes_defers s (n : Z) (callback : cb) :
  _read_callback s = None → _read_buffer_size s < n → socket s ≠ None →
  ∃ s',
    read_bytes call n callback s = Return tt s' ∧
    _read_bytes s' = Some n ∧ _read_callback s' = Some callback ∧
    Z.land (_state s') READ = READ ∧
    _read_buffer s' = _read_buffer s ∧ _read_buffer_size s' = _read_buffer_size s ∧
    _write_buffer s' = _write_buffer s ∧ socket s' = socket s.
Proof.
  destruct s as [[fd|] ? ? ? ? ? ? ? rc ? st ?]; simpl; [|done].
  intros -> Hlt _. unfold read_bytes, _check_closed, _add_io_state, update_handler.
  simpl. rewrite (proj2 (Z.leb_gt n _)) by lia.
  destruct (Z.land st READ =? 0) eqn:Hr; simpl.
  - eexists. split; [done|]. simpl. split_and!; try done.
    apply Z.bits_inj'. intros i _. rewrite Z.land_spec, Z.lor_spec.
    destruct (Z.testbit st i), (Z.testbit READ i); done.
  - eexists. split; [done|]. simpl. split_and!; try done.
    apply Z.eqb_neq in Hr. change READ with (Z.ones 1) in *.
    rewrite Z.land_ones in * by lia. change (2 ^ 1) with 2 in *.
    change (Z.ones 1) with 1. pose proof (Z.mod_pos_bound st 2 eq_refl). lia.
Qed.


Lemma buffered_append s (chunk : bytes) v :
  buffered (set_read_buffer_size v (set_read_buffer (_read_buffer s ++ [chunk]) s))
  = buffered s ++ chunk.
Proof. unfold buffered. simpl. rewrite concat_app. simpl. by rewrite app_nil_r. Qed.

(** X12. [_handle_read] on a chunk that brings the buffer up to the [n]
    bytes a pending read asked for (below the cap): the pending read is
    cleared and its callback runs (under [_run_callback]) on exactly the
    first [n] bytes of what was buffered followed by the chunk; the rest
    stays buffered in order and the running total matches it. *)
Theorem handle_read_completes s (n : Z) (c : cb) (chunk : bytes) (fuel : nat) :
  socket s ≠ None → _read_bytes s = Some n → _read_callback s = Some c →
  1 ≤ n → _read_buffer_size s = len (buffered s) → chunk ≠ [] →
  _read_buffer_size s + len chunk < max_buffer_size s →
  n ≤ _read_buffer_size s + len chunk →
  ∃ s',
    _handle_read call fuel (Received chunk) s
    = Handled <$> _run_callback call fuel c
                    [take (Z.to_nat n) (buffered s ++ chunk)] s' ∧
    buffered s' = drop (Z.to_nat n) (buffered s ++ chunk) ∧
    _read_buffer_size s' = len (buffered s') ∧
    _read_bytes s' = None ∧ _read_callback s' = None ∧
    socket s' = socket s ∧ _write_buffer s' = _write_buffer s.
Proof.
  intros Hs Hn Hc Hn1 Hsize Hchunk Hcap Hle.
  set (s1 := set_read_buffer_size (_read_buffer_size s + len chunk)
               (set_read_buffer (_read_buffer s ++ [chunk]) s)).
  set (s2 := set_reading None None s1).
  assert (Hb2 : buffered s2 = buffered s ++ chunk) by apply buffered_append.
  destruct (consume_spec s2 n) as (buf' & Hcons & Hbuf).
  { rewrite Hb2, len_app. lia. }
  exists (set_read_buffer_size (_read_buffer_size s2 - n) (set_read_buffer buf' s2)).
  split.
  - unfold _handle_read.
    pose proof (len_nonneg chunk).
    rewrite (proj2 (Z.leb_gt (max_buffer_size s) (_read_buffer_size s))) by lia.
    destruct (socket s) as [fd|] eqn:Hsock; [|done].
    destruct chunk as [|b0 chunk]; [done|].
    fold s1. cbv zeta.
    replace (max_buffer_size s1) with (max_buffer_size s) by done.
    replace (_read_buffer_size s1) with (_read_buffer_size s + len (b0 :: chunk)) by done.
    rewrite (proj2 (Z.leb_gt _ _)) by lia.
    replace (_read_bytes s1) with (Some n) by (by rewrite <- Hn).
    rewrite (proj2 (Z.leb_le n _)) by lia.
    fold s2. rewrite Hcons, Hb2.
    replace (_read_callback s1) with (Some c) by (by rewrite <- Hc).
    done.
  - rewrite <- Hb2. split; [exact Hbuf|]. split_and!; try done.
    unfold buffered at 1. simpl. rewrite Hbuf. unfold len.
    rewrite length_drop. rewrite Hb2, length_app. unfold len in *.
    unfold buffered in *. lia.
Qed.

(** X13. [_handle_read] on a chunk that leaves the buffer short of the
    pending read (below the cap): the chunk is appended, the running total
    grows by its length, and nothing else changes. *)
Theorem handle_read_buffers s (n : Z) (chunk : bytes) (fuel : nat) :
  socket s ≠ None → _read_bytes s = Some n → chunk ≠ [] →
  _read_buffer_size s + len chunk < max_buffer_size s →
  _read_buffer_size s + len chunk < n →
  ∃ s',
    _handle_read call fuel (Received chunk) s = Some (Handled (Return tt s')) ∧
    buffered s' = buffered s ++ chunk ∧
    _read_buffer_size s' = _read_buffer_size s + len chunk ∧
    s' = set_read_buffer_size (_read_buffer_size s') (set_read_buffer (_read_buffer s') s).
Proof.
  intros Hs Hn Hchunk Hcap Hlt.
  eexists. split.
  - unfold _handle_read. pose proof (len_nonneg chunk).
    rewrite (proj2 (Z.leb_gt (max_buffer_size s) (_read_buffer_size s))) by lia.
    destruct (socket s) as [fd|] eqn:Hsock; [|done].
    destruct chunk as [|b0 chunk]; [done|]. cbv zeta.
    match goal with |- context [set_read_buffer_size ?v ?t] =>
      set (s1 := set_read_buffer_size v t) end.
    replace (max_buffer_size s1) with (max_buffer_size s) by done.
    replace (_read_buffer_size s1) with (_read_buffer_size s + len (b0 :: chunk)) by done.
    rewrite (proj2 (Z.leb_gt _ _)) by lia.
    replace (_read_bytes s1) with (Some n) by (by rewrite <- Hn).
    rewrite (proj2 (Z.leb_gt n _)) by lia. done.
  - split; [apply buffered_append|]. done.
Qed.

(** X14. [_handle_read] closes the stream on end of file (an empty
    chunk), on a [socket.error] other than would-block, and when the chunk
    brings the running total to [max_buffer_size] or above. *)
Theorem handle_read_closes s (rr : recv_result) (fuel : nat) :
  keeps_closed call → socket s ≠ None →
  _read_buffer_size s < max_buffer_size s →
  (rr = Received []
   ∨ (∃ errno, rr = RecvError errno ∧ errno ≠ EAGAIN)
   ∨ (∃ chunk, rr = Received chunk ∧
               max_buffer_size s ≤ _read_buffer_size s + len chunk)) →
  ∃ r, _handle_read call (S (S (S fuel))) rr s = Some (Handled r) ∧
       socket (state_of r) = None.
Proof.
  intros Hcall Hs Hcap Hrr.
  assert (Hclose : ∀ s0, ∃ r, Handled <$> close call (S (S (S fuel))) s0
                             = Some (Handled r) ∧ socket (state_of r) = None).
  { intros s0. destruct (close_total call Hcall fuel s0) as [r Hr].
    exists r. rewrite Hr. split; [done|].
    apply (proj1 (close_run_callback_closed call Hcall _) _ _ Hr). }
  unfold _handle_read.
  rewrite (proj2 (Z.leb_gt (max_buffer_size s) (_read_buffer_size s))) by lia.
  destruct (socket s) as [fd|] eqn:Hsock; [|done].
  destruct Hrr as [->|[(errno & -> & Hne)|(chunk & -> & Hfull)]].
  - apply Hclose.
  - rewrite bool_decide_eq_false_2; [apply Hclose|].
    unfold EWOULDBLOCK, EAGAIN in *. intros [?|?]; done.
  - destruct chunk as [|b0 chunk]; [apply Hclose|]. cbv zeta.
    match goal with |- context [set_read_buffer_size ?v ?t] =>
      set (s1 := set_read_buffer_size v t) end.
    replace (max_buffer_size s1) with (max_buffer_size s) by done.
    replace (_read_buffer_size s1) with (_read_buffer_size s + len (b0 :: chunk)) by done.
    rewrite (proj2 (Z.leb_le _ _)) by lia. apply Hclose.
Qed.

Lemma wanted_state_set s v h :
  wanted_state (set_handler h (set_state v s)) = wanted_state s.
Proof. done. Qed.

(** X15. When [_handle_events] returns with the stream open (and no ERROR
    event), the interest mask [_state] is ERROR, plus READ exactly when a
    read of a non-zero length is pending, plus WRITE exactly when
    [_write_buffer_size] is not zero. *)
Theorem handle_events_mask s s' (events : Z) rr sr (fuel : nat) :
  _handle_events call fuel events rr sr s = Some (Handled (Return tt s')) →
  socket s' ≠ None → Z.land events ERROR = 0 →
  _state s' = wanted_state s'.
Proof.
  unfold _handle_events. intros Hev Hs' Herr.
  destruct (socket s) eqn:Hsock; [|by injection Hev as <-].
  destruct (if Z.land events READ =? 0 then _ else _) as [[[[] s1|e s1]|s1]|];
    [|done..].
  destruct (socket s1) eqn:Hsock1; [|by injection Hev as <-].
  destruct (if Z.land events WRITE =? 0 then _ else _) as [[[] s2|e s2]|];
    [|done..].
  destruct (socket s2) eqn:Hsock2; [|by injection Hev as <-].
  rewrite Herr in Hev. simpl in Hev.
  destruct (Z.eqb_spec (wanted_state s2) (_state s2)) as [Heq|Hne].
  - by injection Hev as <-.
  - unfold update_handler in Hev. simpl in Hev. rewrite Hsock2 in Hev.
    by injection Hev as <-.
Qed.

End Stream.

End StreamReadFacts.

(** ** The remote client *)

Module SocketClientFacts.
Import IOStream Wire SocketClient IOStreamFacts WireFacts StreamWriteFacts.

Section Remote.
Variable call : closure -> list bytes -> IOStream.t closure -> outcome (IOStream.t closure).
Implicit Types (s : IOStream.t closure) (st : SocketClient.t).

Lemma write_all_open (pieces : list bytes) : ∀ s,
  socket s ≠ None →
  ∃ s',
    write_all pieces s = Return tt s' ∧
    _write_buffer s' = _write_buffer s ++ ((fun x => (x, None)) <$> pieces) ∧
    _write_buffer_size s' = _write_buffer_size s + len (concat pieces) ∧
    socket s' = socket s.
Proof.
  induction pieces as [|x pieces IH]; intros s Hs; simpl.
  - exists s. split_and!; try done.
    + by rewrite app_nil_r.
    + change (len []) with 0. lia.
  - destruct (write_open s x None Hs) as (s1 & -> & Hb & Hz & _ & _ & Heq).
    assert (Hsock : socket s1 = socket s) by (rewrite Heq; done).
    destruct (IH s1) as (s' & -> & Hb' & Hz' & Hs'); [by rewrite Hsock|].
    exists s'. split_and!; try done.
    + by rewrite Hb', Hb, <- app_assoc.
    + rewrite Hz', Hz. unfold len. rewrite length_app. lia.
    + by rewrite Hs'.
Qed.

Lemma closed_false s : socket s ≠ None → closed s = false.
Proof. intros Hs. unfold closed. by apply bool_decide_eq_false. Qed.

Lemma lor_bound (a b n : Z) :
  0 ≤ n → 0 ≤ a < 2 ^ n → 0 ≤ b < 2 ^ n → 0 ≤ Z.lor a b < 2 ^ n.
Proof.
  intros Hn Ha Hb. assert (H0 : 0 ≤ Z.lor a b) by (apply Z.lor_nonneg; lia).
  split; [done|].
  assert (Hm : Z.lor a b = Z.lor a b `mod` 2 ^ n).
  { rewrite <- Z.land_ones, Z.land_lor_distr_l, !Z.land_ones by done.
    by rewrite !Z.mod_small. }
  rewrite Hm. apply Z.mod_pos_bound. lia.
Qed.

Lemma send_header_bound (multicast : bool) (q m : Z) :
  0 ≤ q ≤ 255 → 0 ≤ m < 2 ^ 32 → 0 ≤ send_header multicast q m < 2 ^ 32.
Proof.
  intros Hq Hm. unfold send_header. rewrite !Z.shiftl_mul_pow2 by lia.
  apply (lor_bound _ _ 32); [lia| |lia].
  apply (lor_bound _ _ 32); [lia| |lia].
  apply (lor_bound _ _ 32); [lia|unfold OP_SEND; lia|].
  destruct multicast; lia.
Qed.

(** What [send] does on an idle client with an open stream. *)
Lemma send_idle st s (qid message : bytes) (multicast : bool) (fuel : nat) :
  _stream st = Some s → socket s ≠ None → _sending st = [] →
  len qid ≤ 255 → len message ≤ max_buffer_size s → len message < 2 ^ 32 →
  ∃ hb s',
    Connection.pack_I (send_header multicast (len qid) (len message)) = Some hb ∧
    send call fuel qid message multicast st
    = Some (Return tt (SocketClient.mk (Some s') (connected st) [] (callbacks st))) ∧
    _write_buffer s' = _write_buffer s ++ [(hb, None); (qid, None); (message, None)] ∧
    _write_buffer_size s' = _write_buffer_size s + (4 + len qid + len message) ∧
    socket s' = socket s.
Proof.
  intros Hst Hs Hq Hlq Hlm Hm32.
  destruct (unpack_pack (send_header multicast (len qid) (len message)))
    as (hb & Hp & Hl & _).
  { apply send_header_bound; unfold len in *; lia. }
  destruct (write_all_open [hb; qid; message] s Hs) as (s' & Hw & Hb & Hz & Hsock).
  exists hb, s'. split; [done|]. split.
  - unfold send. rewrite Hst, (closed_false s Hs), Hq.
    cbn -[write_all Connection.pack_I send_header].
    unfold _send. cbn -[write_all Connection.pack_I send_header]. rewrite Hst.
    rewrite (proj2 (Z.ltb_ge 255 (len qid))) by lia.
    rewrite (proj2 (Z.ltb_ge (max_buffer_size s) (len message))) by lia.
    rewrite Hp, Hw. unfold reschedule. simpl. done.
  - split_and!; try done. rewrite Hz. simpl. rewrite app_nil_r.
    unfold len in *. rewrite !length_app. lia.
Qed.

(** X5. [send] on an idle client with an open stream, a qid of at most
    255 bytes and a message shorter than 2^20 bytes: it returns with the
    user queue empty again and has queued exactly three writes, header,
    qid and message, behind what the stream already held; the header
    decodes to SEND, the multicast flag and the two lengths. *)
Theorem send_writes_frame st s (qid message : bytes) (multicast : bool) (fuel : nat) :
  _stream st = Some s → socket s ≠ None → _sending st = [] →
  len qid ≤ 255 → len message ≤ max_buffer_size s → len message < 2 ^ 20 →
  ∃ hb s' h,
    send call fuel qid message multicast st
    = Some (Return tt (SocketClient.mk (Some s') (connected st) [] (callbacks st))) ∧
    _write_buffer s' = _write_buffer s ++ [(hb, None); (qid, None); (message, None)] ∧
    _write_buffer_size s' = _write_buffer_size s + (4 + len qid + len message) ∧
    unpack_I hb = Some h ∧
    op_of h = OP_SEND ∧ flag_of h = (if multicast then 1 else 0) ∧
    qid_length_of h = len qid ∧ message_length_of h = len message.
Proof.
  intros Hst Hs Hq Hlq Hlm Hm.
  destruct (send_idle st s qid message multicast fuel Hst Hs Hq Hlq Hlm)
    as (hb & s' & Hp & Hsend & Hb & Hz & _); [lia|].
  pose proof (len_nonneg qid). pose proof (len_nonneg message).
  destruct (unpack_pack (send_header multicast (len qid) (len message)))
    as (hb' & Hp' & _ & Hu).
  { apply send_header_bound; lia. }
  assert (hb' = hb) as -> by congruence.
  exists hb, s', (send_header multicast (len qid) (len message)).
  split; [done|]. split; [done|]. split; [done|]. split; [done|].
  rewrite send_header_sum by lia.
  apply fields_of_sum; unfold OP_SEND; try lia. destruct multicast; lia.
Qed.

(** X6. [send] accepts a message of 2^20 bytes or more (up to
    [max_buffer_size]): it queues the whole message, under a header that
    announces only its length modulo 2^20. *)
Theorem send_long_message_misframed st s (qid message : bytes) (multicast : bool)
    (fuel : nat) :
  _stream st = Some s → socket s ≠ None → _sending st = [] →
  len qid ≤ 255 → len message ≤ max_buffer_size s → max_buffer_size s < 2 ^ 32 →
  2 ^ 20 ≤ len message →
  ∃ hb s' h,
    send call fuel qid message multicast st
    = Some (Return tt (SocketClient.mk (Some s') (connected st) [] (callbacks st))) ∧
    _write_buffer s' = _write_buffer s ++ [(hb, None); (qid, None); (message, None)] ∧
    unpack_I hb = Some h ∧
    message_length_of h = len message `mod` 2 ^ 20 ∧
    message_length_of h < len message.
Proof.
  intros Hst Hs Hq Hlq Hlm Hmax Hbig.
  destruct (send_idle st s qid message multicast fuel Hst Hs Hq Hlq Hlm)
    as (hb & s' & Hp & Hsend & Hb & _ & _); [lia|].
  pose proof (len_nonneg qid).
  destruct (unpack_pack (send_header multicast (len qid) (len message)))
    as (hb' & Hp' & _ & Hu).
  { apply send_header_bound; lia. }
  assert (hb' = hb) as -> by congruence.
  exists hb, s', (send_header multicast (len qid) (len message)).
  split; [done|]. split; [done|]. split; [done|].
  assert (He : message_length_of (send_header multicast (len qid) (len message))
               = len message `mod` 2 ^ 20).
  { unfold message_length_of, send_header. change 0x000FFFFF with (Z.ones 20).
    rewrite !Z.land_lor_distr_l, !shiftl_low_bits by lia.
    by rewrite Z.land_ones. }
  split; [done|]. rewrite He.
  pose proof (Z.mod_pos_bound (len message) (2 ^ 20) eq_refl). lia.
Qed.

Lemma subscribe_header_sum (x q : Z) :
  0 ≤ x ≤ 1 → 0 ≤ q ≤ 255 →
  subscribe_header x q = OP_SUBSCRIBE * 2 ^ 29 + x * 2 ^ 28 + q * 2 ^ 20 + 0.
Proof.
  intros Hx Hq. unfold subscribe_header. rewrite <- header_sum by lia.
  by rewrite Z.lor_0_r.
Qed.

(** X7. [subscribe] on an open stream queues a header and the qid text
    (for a pattern its source); the header decodes to SUBSCRIBE, the
    pattern flag, the length of the text and a message length of zero. *)
Theorem subscribe_writes_header st s (qid : Exchange.Qid bytes) :
  let text := match qid with Exchange.Literal t => t | Exchange.Pattern p => p end in
  let x := match qid with Exchange.Literal _ => 0 | Exchange.Pattern _ => 1 end in
  _stream st = Some s → socket s ≠ None → len text ≤ 255 →
  ∃ hb s' h,
    subscribe qid st = Return tt (with_stream s' st) ∧
    _write_buffer s' = _write_buffer s ++ [(hb, None); (text, None)] ∧
    unpack_I hb = Some h ∧
    op_of h = OP_SUBSCRIBE ∧ flag_of h = x ∧
    qid_length_of h = len text ∧ message_length_of h = 0.
Proof.
  intros text x Hst Hs Hlen. pose proof (len_nonneg text).
  assert (Hx : 0 ≤ x ≤ 1) by (unfold x; destruct qid; lia).
  destruct (unpack_pack (subscribe_header x (len text))) as (hb & Hp & _ & Hu).
  { rewrite subscribe_header_sum by lia. unfold OP_SUBSCRIBE. lia. }
  destruct (write_all_open [hb; text] s Hs) as (s' & Hw & Hb & _ & _).
  exists hb, s', (subscribe_header x (len text)). split.
  - unfold subscribe.
    replace (match qid with
             | Exchange.Literal s0 => (0, s0)
             | Exchange.Pattern p => (1, p)
             end) with (x, text) by (unfold x, text; by destruct qid).
    rewrite (proj2 (Z.ltb_ge 255 (len text))) by lia.
    by rewrite Hst, Hp, Hw.
  - split; [done|]. split; [done|].
    rewrite subscribe_header_sum by lia.
    apply fields_of_sum; unfold OP_SUBSCRIBE; lia.
Qed.

End Remote.

End SocketClientFacts.

(** ** Routing *)

Module RoutingFacts.
Import Exchange PyFacts ExchangeFacts.

Section Routing.
Context {pattern : Type} `{Countable pattern}.
Variable re_match : pattern -> bytes -> bool.
Implicit Types (ex : Exchange.t pattern) (qid k : Qid pattern) (c : client).

Lemma recipients_default (q : bytes) ex c :
  c ∈ recipients re_match q ex ↔
  ∃ k, c ∈ default ∅ (_subscribers ex !! k) ∧ key_matches re_match k q = true.
Proof.
  rewrite recipients_spec. split.
  - intros (k & s & Hk & Hc & Hm). exists k. by rewrite Hk.
  - intros (k & Hc & Hm). destruct (_subscribers ex !! k) as [s|] eqn:Hk;
      simpl in Hc; [by exists k, s|set_solver].
Qed.



Section Calls.

Context {W : Type}.
Variable on_message : client -> bytes -> bytes -> W -> outcome W.


(** X17. A unicast dispatch with at least one candidate makes exactly one
    [on_message] call, to a client of the recipient set and on the state
    the dispatch was entered with; it returns or raises as that call does,
    with the state that call left. *)
Theorem unicast_picks_one_recipient (r : nat) (q message : bytes) ex (w : W) :
  recipients re_match q ex ≠ ∅ →
  ∃ c, c ∈ recipients re_match q ex ∧
       dispatch re_match on_message r q message false ex w
       = ([(c, q, message)], on_message c q message w).
Proof.
  intros Hne. unfold dispatch.
  set (cs := elements (recipients re_match q ex)).
  assert (Hlen : (0 < length cs)%nat).
  { destruct cs eqn:Hcs; [|simpl; lia].
    apply elements_empty_inv in Hcs. exfalso. apply Hne.
    by apply leibniz_equiv. }
  destruct (lookup_lt_is_Some_2 cs (r `mod` length cs)%nat) as [c Hc].
  { apply Nat.mod_upper_bound. lia. }
  rewrite Hc. exists c. split; [|done].
  apply elem_of_elements. by apply list_elem_of_lookup_2 in Hc.
Qed.

End Calls.

(** X18. [unsubscribe] of a pair that is not subscribed, for a client in
    the table, raises [KeyError]; the by-client map and the recipients of
    every target are unchanged, and the key is now present in the by-qid
    map (the [defaultdict] created it). *)
Theorem unsubscribe_missing_raises qid c ex :
  is_Some (_clients ex !! c) → ¬ in_by_qid ex qid c →
  ∃ ex', unsubscribe qid c ex = Raise KeyError ex' ∧
         _clients ex' = _clients ex ∧
         is_Some (_subscribers ex' !! qid) ∧
         ∀ (q : bytes), recipients re_match q ex' = recipients re_match q ex.
Proof.
  intros [l Hl] Hn. rewrite in_by_qid_default in Hn.
  unfold unsubscribe. rewrite Hl. rewrite decide_False by done.
  eexists. split; [done|]. simpl. split; [done|]. split.
  - rewrite lookup_insert_eq. by eexists.
  - intros q. apply set_eq. intros c'. rewrite !recipients_default. simpl.
    split; intros (k & Hc & Hm); exists k; (split; [|done]);
      revert Hc; rewrite lookup_insert; case_decide; subst; simpl; done.
Qed.

(** X19. After an [unsubscribe] that returned, the client is no recipient
    of a target it could only reach through that key, and the other
    clients receive what they received before. *)
Theorem unsubscribed_client_not_reached qid c ex ex' (q : bytes) :
  unsubscribe qid c ex = Return tt ex' →
  (∀ k, in_by_qid ex k c → key_matches re_match k q = true → k = qid) →
  (c ∉ recipients re_match q ex') ∧
  ∀ c', c' ≠ c → (c' ∈ recipients re_match q ex' ↔ c' ∈ recipients re_match q ex).
Proof.
  intros Hu Honly. apply unsubscribe_Return in Hu as (l & l' & Hl & Hr & Hc & ->).
  split.
  - rewrite recipients_default. simpl. intros (k & Hk & Hm).
    rewrite lookup_insert in Hk. case_decide as Hd; simpl in Hk.
    + set_solver.
    + apply Hd. symmetry. apply Honly; [|done]. by apply in_by_qid_default.
  - intros c' Hne. rewrite !recipients_default. simpl.
    split; intros (k & Hk & Hm); exists k; (split; [|done]);
      revert Hk; rewrite lookup_insert; case_decide; subst; simpl; set_solver.
Qed.

Lemma list_remove_middle {A} `{EqDecision A} (x : A) (pre rest : list A) :
  x ∉ pre → list_remove x (pre ++ x :: rest) = Some (pre ++ rest).
Proof.
  induction pre as [|y pre IH]; simpl; intros Hx.
  - by rewrite decide_True.
  - apply not_elem_of_cons in Hx as [Hne Hx].
    rewrite decide_False by done. by rewrite IH.
Qed.

Lemma evens_elem_of {A} (l : list A) : ∀ x, x ∈ evens l → x ∈ l.
Proof.
  assert (Hboth : (∀ x, x ∈ evens l → x ∈ l) ∧ (∀ a x, x ∈ evens (a :: l) → x ∈ a :: l)).
  { induction l as [|b' l [IH1 IH2]]; simpl.
    - split; [done|]. done.
    - split; [apply IH2|]. intros a x. rewrite !elem_of_cons.
      intros [->|Hx]; [by left|]. right. right. by apply IH1. }
  apply Hboth.
Qed.

Lemma disconnect_loop_spec c (fuel : nat) : ∀ (rest pre : list (Qid pattern)) ex,
  _clients ex !! c = Some (pre ++ rest) →
  NoDup (pre ++ rest) →
  (∀ k, k ∈ pre ++ rest → c ∈ default ∅ (_subscribers ex !! k)) →
  (length rest < fuel)%nat →
  ∃ ex',
    disconnect_loop fuel (length pre) c ex = Some (Return tt ex') ∧
    _clients ex' = <[c := pre ++ odds rest]> (_clients ex) ∧
    ∀ k, default ∅ (_subscribers ex' !! k)
         = if decide (k ∈ evens rest)
           then default ∅ (_subscribers ex !! k) ∖ {[c]}
           else default ∅ (_subscribers ex !! k).
Proof.
  induction fuel as [|fuel IH]; intros rest pre ex Hl Hnd Hsub Hfuel; [lia|].
  simpl. rewrite Hl. simpl.
  destruct rest as [|r0 rest].
  - rewrite app_nil_r, lookup_ge_None_2 by done.
    exists ex. split; [done|]. simpl. split.
    + rewrite app_nil_r in Hl |- *. by rewrite insert_id.
    + done.
  - rewrite lookup_app_r, Nat.sub_diag by done. simpl.
    apply NoDup_app in Hnd as Hnd'. destruct Hnd' as (Hpre & Hdisj & Hrest).
    apply NoDup_cons in Hrest as [Hr0 Hrest].
    assert (Hr0pre : r0 ∉ pre).
    { intros Hin. apply (Hdisj _ Hin). by left. }
    unfold unsubscribe. rewrite Hl.
    rewrite decide_True by (apply Hsub; rewrite elem_of_app; right; by left).
    rewrite list_remove_middle by done.
    set (ex1 := Exchange.mk _ _).
    destruct rest as [|r1 rest].
    + (* the list is now [pre]; the next index is past its end *)
      destruct fuel as [|fuel]; [simpl in Hfuel; lia|]. simpl.
      rewrite lookup_insert_eq. simpl. rewrite app_nil_r.
      rewrite lookup_ge_None_2 by lia.
      exists ex1. split; [done|]. simpl. split; [by rewrite app_nil_r|].
      intros k. rewrite lookup_insert. case_decide as Hd; subst; simpl.
      * rewrite decide_True by (by left). done.
      * rewrite decide_False; [done|]. by intros ->%list_elem_of_singleton.
    + destruct (IH rest (pre ++ [r1]) ex1) as (ex' & Hloop & Hcl & Hsubs).
      * simpl. rewrite lookup_insert_eq. by rewrite <- app_assoc.
      * rewrite <- app_assoc. simpl. apply NoDup_app. split_and!; [done| |done].
        intros x Hx Hx'. apply (Hdisj x Hx). by right.
      * intros k Hk. simpl. rewrite <- app_assoc in Hk. simpl in Hk.
        rewrite lookup_insert_ne.
        -- apply Hsub. rewrite elem_of_app in Hk |- *.
           destruct Hk as [?|?]; [by left|right; by right].
        -- intros <-. apply elem_of_app in Hk as [?|?]; done.
      * simpl in Hfuel |- *. lia.
      * rewrite length_app in Hloop. simpl in Hloop.
        rewrite Nat.add_1_r in Hloop.
        exists ex'. split; [done|]. split.
        -- rewrite Hcl. simpl. rewrite insert_insert_eq.
           by rewrite <- app_assoc.
        -- intros k. rewrite Hsubs. simpl. rewrite lookup_insert.
           assert (Hr0e : r0 ∉ evens rest).
           { intros Hin%evens_elem_of. apply Hr0. by right. }
           destruct (decide (r0 = k)) as [<-|Hne]; simpl.
           ++ rewrite decide_False by done. rewrite decide_True by (by left). done.
           ++ destruct (decide (k ∈ evens rest)) as [Hin|Hnin].
              ** rewrite decide_True by (by right). done.
              ** rewrite decide_False; [done|].
                 intros [->|?]%elem_of_cons; done.
Qed.

(** X20. On a table whose two maps agree and whose lists hold no qid
    twice, [disconnect] returns and removes the client from the by-client
    map; in the by-qid map it removes the client exactly from the keys at
    positions 0, 2, 4, ... of its qid list, and every other pair is as
    before. *)
Theorem disconnect_drops_even_positions c ex (l : list (Qid pattern)) :
  consistent ex → _clients ex !! c = Some l →
  ∃ ex',
    disconnect c ex = Some (Return tt ex') ∧
    _clients ex' = delete c (_clients ex) ∧
    ∀ k c', in_by_qid ex' k c' ↔ in_by_qid ex k c' ∧ ¬ (c' = c ∧ k ∈ evens l).
Proof.
  intros [Ha Hn] Hl. rewrite agree_default in Ha.
  destruct (disconnect_loop_spec c (S (length l)) l [] ex)
    as (ex' & Hloop & Hcl & Hsubs); simpl.
  - done.
  - by apply (Hn c).
  - intros k Hk. apply Ha. by rewrite Hl.
  - lia.
  - change (length (@nil (Qid pattern))) with 0%nat in Hloop.
    unfold disconnect. rewrite Hl, Hloop.
    eexists. split; [done|]. simpl. split.
    + by rewrite Hcl, delete_insert_eq.
    + intros k c'. rewrite !in_by_qid_default. simpl. rewrite Hsubs.
      destruct (decide (k ∈ evens l)); set_solver.
Qed.

End Routing.

End RoutingFacts.

(** ** Attaching and detaching a client *)

Module ClientLifecycle.
Import Exchange Client ExchangeFacts RoutingFacts.

Section Participants.
Context {pattern : Type} `{Countable pattern}.
Variable re_match : pattern -> bytes -> bool.
Implicit Types (w : world pattern) (self : client).

Lemma connect_fresh self (e : nat) w ex :
  self ∉ connected w → exchanges w !! e = Some ex →
  Client.connect self e w
  = Return tt (Client.mk
      (<[e := Exchange.mk (<[self := []]> (_clients ex)) (_subscribers ex)]> (exchanges w))
      (connected w ∪ {[self]})
      (<[self := e]> (_exchange w))).
Proof.
  intros Hc He. unfold Client.connect. rewrite decide_False by done.
  unfold on_exchange. simpl. rewrite lookup_insert_eq, He. done.
Qed.

Section Calls.

Variable on_message_of : client -> bytes -> bytes -> world pattern
                         -> outcome (world pattern).


End Calls.

(** X22. [connect] followed by [disconnect], for a client the exchange
    does not know, gives back the world it started from. *)
Theorem connect_disconnect_restores self (e : nat) w ex :
  self ∉ connected w → _exchange w !! self = None →
  exchanges w !! e = Some ex → _clients ex !! self = None →
  ∃ w1, Client.connect self e w = Return tt w1 ∧
        self ∈ connected w1 ∧
        Client.disconnect self w1 = Some (Return tt w).
Proof.
  intros Hc Hx He Hs. rewrite (connect_fresh self e w ex Hc He).
  eexists. split; [done|]. split; [set_solver|].
  unfold Client.disconnect. simpl. rewrite !lookup_insert_eq.
  unfold Exchange.disconnect. simpl. rewrite lookup_insert_eq. simpl.
  destruct w as [exs conn xm]. simpl in *.
  do 2 f_equal. f_equal.
  - rewrite insert_insert_eq, delete_insert_eq, delete_id by done.
    rewrite insert_id; [done|]. rewrite He. by destruct ex.
  - set_solver.
  - by rewrite delete_insert_eq, delete_id.
Qed.

End Participants.

End ClientLifecycle.

(** ** The egress scheduler, in general *)

Module EgressFacts.
Import IOStream Wire Connection IOStreamFacts WireFacts StreamWriteFacts SocketClientFacts.

Section Egress.
Variable call : closure -> list bytes -> IOStream.t closure -> outcome (IOStream.t closure).
Implicit Types (s : IOStream.t closure) (st : Connection.t).

Lemma write_frame_open s (h qid x : bytes) (k : closure) :
  socket s ≠ None →
  ∃ s',
    write_frame h qid x k s = Return tt s' ∧
    _write_buffer s' = _write_buffer s ++ [(h, None); (qid, None); (x, Some k)] ∧
    _write_buffer_size s' = _write_buffer_size s + (len h + len qid + len x) ∧
    socket s' = socket s ∧ max_buffer_size s' = max_buffer_size s.
Proof.
  intros Hs. unfold write_frame.
  destruct (write_open s h None Hs) as (s1 & -> & Hb1 & Hz1 & _ & _ & Heq1).
  assert (Hs1 : socket s1 = socket s) by (rewrite Heq1; done).
  assert (Hm1 : max_buffer_size s1 = max_buffer_size s) by (rewrite Heq1; done).
  destruct (write_open s1 qid None) as (s2 & -> & Hb2 & Hz2 & _ & _ & Heq2);
    [by rewrite Hs1|].
  assert (Hs2 : socket s2 = socket s1) by (rewrite Heq2; done).
  assert (Hm2 : max_buffer_size s2 = max_buffer_size s1) by (rewrite Heq2; done).
  destruct (write_open s2 x (Some k)) as (s3 & -> & Hb3 & Hz3 & _ & _ & Heq3);
    [by rewrite Hs2, Hs1|].
  exists s3. split; [done|]. split_and!.
  - by rewrite Hb3, Hb2, Hb1, <- !app_assoc.
  - lia.
  - rewrite Heq3. simpl. by rewrite Hs2.
  - rewrite Heq3. simpl. by rewrite Hm2.
Qed.

Lemma message_header_bound (q m : Z) :
  0 ≤ q ≤ 255 → 0 ≤ m < 2 ^ 20 → 0 ≤ message_header q m < 2 ^ 32.
Proof.
  intros Hq Hm. unfold message_header. rewrite !Z.shiftl_mul_pow2 by lia.
  apply (lor_bound _ _ 32); [lia| |lia].
  apply (lor_bound _ _ 32); [lia|unfold OP_MESSAGE; lia|lia].
Qed.

(** What [_recv] does when the entry it pops has a message to send. *)
Lemma recv_spec st fq (qid : bytes) (q : nat) (d : list bytes) (x : bytes) fuel :
  _fq st = fq ++ [(qid, q)] → deques st !! q = Some (d ++ [x]) →
  socket (_stream st) ≠ None → len qid ≤ 255 → len x < 2 ^ 20 →
  ∃ hb s',
    pack_I (message_header (len qid) (len x)) = Some hb ∧
    _recv call fuel st
    = Some (Return tt (Connection.mk s' (<[q := d]> (deques st)) (_mq st) fq true
                         (callbacks st))) ∧
    _write_buffer s' = _write_buffer (_stream st)
                       ++ [(hb, None); (qid, None); (x, Some (on_send_complete_cb qid q))] ∧
    _write_buffer_size s' = _write_buffer_size (_stream st) + (4 + len qid + len x) ∧
    socket s' = socket (_stream st).
Proof.
  intros Hfq Hd Hs Hq Hx.
  destruct (unpack_pack (message_header (len qid) (len x))) as (hb & Hp & Hl & _).
  { apply message_header_bound; unfold len in *; lia. }
  destruct (write_frame_open (_stream st) hb qid x (on_send_complete_cb qid q) Hs)
    as (s' & Hw & Hb & Hz & Hsock & _).
  exists hb, s'. split; [done|]. split.
  - unfold _recv. rewrite Hfq, reverse_app. simpl.
    unfold deque_of. simpl. rewrite Hd. simpl. rewrite reverse_app. simpl.
    rewrite reverse_involutive.
    change (Z.lor (Z.lor (OP_MESSAGE ≪ 29) (len qid ≪ 20)) (len x))
      with (message_header (len qid) (len x)).
    rewrite Hp. unfold with_deque, with_recving, with_fq. simpl.
    rewrite Hw. unfold with_stream. simpl. by rewrite reverse_involutive.
  - split_and!; try done. rewrite Hz, Hl. lia.
Qed.

(** [drain] moves as the stream's write handler does.  With a running
    total of zero [_handle_write] returns with the buffer as it was, and
    [drain] stops; otherwise, the socket taking the head entry whole,
    [_handle_write] leaves the rest of the buffer and the total less the
    entry's length and runs the entry's completion if it has one, and
    [drain] gives that completion or goes on with the rest. *)
Lemma drain_follows_handle_write s (sr : send_result) fuel :
  socket s ≠ None →
  (IOStream._write_buffer_size s = 0 →
   drain (IOStream._write_buffer s) (IOStream._write_buffer_size s)
   = Return None (IOStream._write_buffer s, IOStream._write_buffer_size s) ∧
   ∃ s', _handle_write call fuel sr s = Some (Return tt s') ∧
         IOStream._write_buffer s' = IOStream._write_buffer s ∧
         IOStream._write_buffer_size s' = IOStream._write_buffer_size s) ∧
  (∀ x c rest,
     IOStream._write_buffer_size s ≠ 0 → IOStream._write_buffer s = (x, c) :: rest →
     ∃ s', IOStream._write_buffer s' = rest ∧
           IOStream._write_buffer_size s' = IOStream._write_buffer_size s - len x ∧
           _handle_write call fuel (Sent (len x)) s
           = match c with
             | Some k => _run_callback call fuel k [] s'
             | None => Some (Return tt s')
             end ∧
           drain (IOStream._write_buffer s) (IOStream._write_buffer_size s)
           = match c with
             | Some k => Return (Some k) (rest, IOStream._write_buffer_size s - len x)
             | None => drain rest (IOStream._write_buffer_size s - len x)
             end).
Proof.
  intros Hs. split.
  - intros Hz. split.
    + rewrite Hz. by destruct (IOStream._write_buffer s).
    + unfold _handle_write, handle_write_rearm. rewrite Hz. simpl.
      destruct (rearm_open s Hs) as (s' & Hr & Heq). rewrite Hz in Hr.
      simpl in Hr. rewrite Hr. exists s'. split; [done|].
      rewrite Heq. simpl. by rewrite Hz.
  - intros x c rest Hz Hb. unfold _handle_write.
    rewrite (proj2 (Z.eqb_neq _ 0)) by done. rewrite Hb.
    destruct (socket s) as [fd|] eqn:Hsock; [|done]. simpl. rewrite Hsock.
    rewrite Z.ltb_irrefl. unfold handle_write_rearm.
    match goal with |- context [if 0 <? IOStream._write_buffer_size ?s1 then _ else _] =>
      destruct (rearm_open s1) as (s' & Hr & Heq); [simpl; by rewrite Hsock|]
    end.
    rewrite Hr. exists s'. rewrite Heq. simpl.
    rewrite (proj2 (Z.eqb_neq _ 0)) by done.
    done.
Qed.

(** Over a buffer whose running total is right and whose earlier entries
    carry no completion, the socket takes everything up to a non-empty body
    and reaches its completion. *)
Lemma drain_frame (h qid x : bytes) (k : closure)
    (wb : list (bytes * option closure)) : ∀ size,
  Forall (fun e => e.2 = None) wb → 0 < len x →
  size = len (concat wb.*1) + (len h + len qid + len x) →
  drain (wb ++ [(h, None); (qid, None); (x, Some k)]) size
  = Return (Some k) ([], 0).
Proof.
  pose proof (len_nonneg h). pose proof (len_nonneg qid).
  induction wb as [|[y c] wb IH]; intros size Hnone Hx Hsize; simpl.
  - change (len (concat (@nil (bytes * option closure)).*1)) with 0 in Hsize.
    destruct (Z.eqb_spec size 0); [lia|].
    destruct (Z.eqb_spec (size - len h) 0); [lia|].
    destruct (Z.eqb_spec (size - len h - len qid) 0); [lia|].
    do 2 f_equal. lia.
  - apply Forall_cons in Hnone as [Hc Hnone]. simpl in Hc. subst c.
    change (concat ((y, None) :: wb).*1) with (y ++ concat wb.*1) in Hsize.
    rewrite len_app in Hsize.
    pose proof (len_nonneg y). pose proof (len_nonneg (concat wb.*1)).
    destruct (Z.eqb_spec size 0); [lia|].
    apply IH; [done|done|lia].
Qed.

(** A body of no bytes: once the header and the qid went out the running
    total is zero and the handler stops, the body still queued. *)
Lemma drain_empty_body (h qid : bytes) (k : closure) :
  0 < len h →
  drain [(h, None); (qid, None); ([], Some k)] (len h + len qid + 0)
  = Return None (if len qid =? 0 then [(qid, None); ([], Some k)]
                 else [([], Some k)], 0).
Proof.
  intros Hh. pose proof (len_nonneg qid). simpl.
  destruct (Z.eqb_spec (len h + len qid + 0) 0); [lia|].
  destruct (Z.eqb_spec (len h + len qid + 0 - len h) 0) as [He|Hne].
  - rewrite (proj2 (Z.eqb_eq (len qid) 0)) by lia. do 2 f_equal. lia.
  - rewrite (proj2 (Z.eqb_neq (len qid) 0)) by lia.
    rewrite (proj2 (Z.eqb_eq _ 0)) by lia. do 2 f_equal. lia.
Qed.

(** X23. The qid served last keeps its turn.  The io_loop runs a
    scheduled [_recv] on an open connection whose stream has a right
    running total and no completion queued; the qid at the end of the fair
    queue has at least two messages waiting, the newest [x] non-empty and
    shorter than 2^20 bytes, the qid at most 255 bytes.  [_recv] queues the
    frame of [x]; when the socket has taken it, its completion puts the qid
    back at the end of the fair queue: [_fq] is what it was before
    [_recv], a [_recv] is scheduled again, and the message it will take is
    the next one of the same qid, whatever other qids wait in front. *)
Theorem backlog_is_served_first st fq (qid : bytes) (q : nat) (d : list bytes)
    (y x : bytes) (ks : list closure) fuel :
  callbacks st = _recv_cb :: ks →
  _fq st = fq ++ [(qid, q)] → deques st !! q = Some (d ++ [y; x]) →
  socket (_stream st) ≠ None →
  Forall (fun e => e.2 = None) (IOStream._write_buffer (_stream st)) →
  IOStream._write_buffer_size (_stream st) = len (queued (_stream st)) →
  len qid ≤ 255 → 0 < len x < 2 ^ 20 →
  ∃ hb st1 st2,
    step call fuel RunCallback st = Some (Return tt st1) ∧
    IOStream._write_buffer (_stream st1)
    = IOStream._write_buffer (_stream st)
      ++ [(hb, None); (qid, None); (x, Some (on_send_complete_cb qid q))] ∧
    step call fuel SendComplete st1 = Some (Return tt st2) ∧
    IOStream._write_buffer (_stream st2) = [] ∧
    _fq st2 = _fq st ∧ deque_of q st2 = d ++ [y] ∧
    callbacks st2 = ks ++ [_recv_cb].
Proof.
  intros Hcb Hfq Hd Hs Hnone Hsize Hq [Hx0 Hx].
  set (st0 := Connection.mk (_stream st) (deques st) (_mq st) (_fq st)
                (_recving st) ks).
  destruct (recv_spec st0 fq qid q (d ++ [y]) x fuel)
    as (hb & s' & Hp & Hr & Hb & Hz & Hsock); try done.
  { simpl. by rewrite <- app_assoc. }
  destruct (unpack_pack (message_header (len qid) (len x))) as (hb' & Hp' & Hl & _).
  { apply message_header_bound; unfold len in *; lia. }
  rewrite Hp in Hp'. injection Hp' as <-.
  simpl in Hr, Hb, Hz, Hsock.
  eexists hb, _, _. split.
  { simpl. rewrite Hcb. exact Hr. }
  split; [exact Hb|].
  simpl. unfold send_complete. cbn [_stream].
  destruct (socket s') as [fd|] eqn:Hfd; [|congruence].
  rewrite Hb, Hz.
  rewrite (drain_frame hb qid x (on_send_complete_cb qid q)
             (IOStream._write_buffer (_stream st))
             (IOStream._write_buffer_size (_stream st) + (4 + len qid + len x)))
    by (try done; rewrite Hsize, Hl; unfold queued; lia).
  cbn [run_closure]. unfold on_send_complete, deque_of. simpl.
  rewrite lookup_insert_eq. simpl.
  assert (Hpos : (0 <? len (d ++ [y])) = true).
  { apply Z.ltb_lt. unfold len. rewrite length_app. simpl. lia. }
  rewrite Hpos. simpl.
  assert (Hpos' : (0 <? len (fq ++ [(qid, q)])) = true).
  { apply Z.ltb_lt. unfold len. rewrite length_app. simpl. lia. }
  rewrite Hpos'. split; [done|]. simpl. rewrite lookup_insert_eq. by rewrite Hfq.
Qed.

(** X24. One non-empty message through an idle connection.  The
    connection is open, has nothing queued for the qid, an empty fair
    queue, no [_recv] under way and no callback scheduled; its stream has
    a right running total and no completion queued; the qid is at most 255
    bytes, the message shorter than 2^20 bytes and within
    [max_buffer_size].  [on_message] schedules one [_recv]; the io_loop
    runs it and the frame (header, qid, body with its completion) is
    queued on the stream; when the socket has taken it the completion runs:
    the write buffer is empty, the qid's deque is gone from [_mq], [_fq] is
    empty, [_recving] is cleared and nothing is scheduled. *)
Theorem idle_connection_sends_and_settles st (qid message : bytes) fuel :
  _mq st !! qid = None → _fq st = [] → _recving st = false → callbacks st = [] →
  socket (_stream st) ≠ None →
  Forall (fun e => e.2 = None) (IOStream._write_buffer (_stream st)) →
  IOStream._write_buffer_size (_stream st) = len (queued (_stream st)) →
  len qid ≤ 255 → 0 < len message < 2 ^ 20 →
  len message ≤ max_buffer_size (_stream st) →
  ∃ hb q st1 st2 st3,
    step call fuel (OnMessage qid message) st = Some (Return tt st1) ∧
    callbacks st1 = [_recv_cb] ∧
    step call fuel RunCallback st1 = Some (Return tt st2) ∧
    pack_I (message_header (len qid) (len message)) = Some hb ∧
    IOStream._write_buffer (_stream st2)
    = IOStream._write_buffer (_stream st)
      ++ [(hb, None); (qid, None); (message, Some (on_send_complete_cb qid q))] ∧
    step call fuel SendComplete st2 = Some (Return tt st3) ∧
    IOStream._write_buffer (_stream st3) = [] ∧
    IOStream._write_buffer_size (_stream st3) = 0 ∧
    _mq st3 = _mq st ∧ _fq st3 = [] ∧ _recving st3 = false ∧
    callbacks st3 = [].
Proof.
  intros Hmq Hfq Hrec Hcb Hs Hnone Hsize Hq [Hm0 Hm] Hmax.
  set (q := fresh (dom (deques st))).
  set (st1 := Connection.mk (_stream st) (<[q := [message]]> (<[q := []]> (deques st)))
                (<[qid := q]> (_mq st)) [(qid, q)] false [_recv_cb]).
  assert (Hon : on_message qid message st = Return tt st1).
  { unfold on_message. rewrite (proj2 (Z.leb_le _ _)) by done.
    unfold mq_getitem. rewrite Hmq. fold q. unfold deque_of, with_deque. simpl.
    rewrite lookup_insert_eq. simpl. rewrite lookup_insert_eq. simpl.
    rewrite Hrec, Hfq, Hcb. done. }
  set (st0 := Connection.mk (_stream st) (<[q := [message]]> (<[q := []]> (deques st)))
                (<[qid := q]> (_mq st)) [(qid, q)] false []).
  destruct (recv_spec st0 [] qid q [] message fuel)
    as (hb & s' & Hp & Hr & Hb & Hz & Hsock); try done.
  { simpl. by rewrite lookup_insert_eq. }
  destruct (unpack_pack (message_header (len qid) (len message))) as (hb' & Hp' & Hl & _).
  { apply message_header_bound; unfold len in *; lia. }
  rewrite Hp in Hp'. injection Hp' as <-.
  simpl in Hb, Hr, Hz, Hsock.
  eexists hb, q, st1, _, _. split; [by rewrite <- Hon|]. split; [done|].
  split; [exact Hr|]. split; [done|]. split; [done|].
  simpl. unfold send_complete. cbn [_stream].
  destruct (socket s') as [fd|] eqn:Hfd; [|congruence].
  rewrite Hb, Hz.
  rewrite (drain_frame hb qid message (on_send_complete_cb qid q)
             (IOStream._write_buffer (_stream st))
             (IOStream._write_buffer_size (_stream st) + (4 + len qid + len message)))
    by (try done; rewrite Hsize, Hl; unfold queued; lia).
  cbn [run_closure]. unfold on_send_complete, deque_of. simpl.
  rewrite lookup_insert_eq. simpl.
  rewrite lookup_insert_eq. simpl. split; [reflexivity|]. simpl.
  split_and!; try done. by rewrite delete_insert_eq, delete_id.
Qed.

(** X25. A message of no bytes stalls the egress of an idle connection.
    The connection is open, has nothing queued for the qid (of at most 255
    bytes), an empty fair queue, no [_recv] under way, no callback
    scheduled and an empty write buffer.  [on_message] with an empty
    message schedules [_recv], which queues header, qid and the empty body
    with its completion.  The socket takes the header and the qid; the
    running total is then zero, so the write handler never pops the body
    and its completion never runs: [_recving] stays set with nothing
    scheduled, however often the socket is writable, and a later message
    for the qid is queued without scheduling a [_recv]. *)
Theorem empty_message_stalls_egress st (qid m : bytes) fuel :
  _mq st !! qid = None → _fq st = [] → _recving st = false → callbacks st = [] →
  socket (_stream st) ≠ None →
  IOStream._write_buffer (_stream st) = [] →
  IOStream._write_buffer_size (_stream st) = 0 →
  len qid ≤ 255 → len m ≤ max_buffer_size (_stream st) →
  ∃ st1 st2 st3 st4,
    step call fuel (OnMessage qid []) st = Some (Return tt st1) ∧
    step call fuel RunCallback st1 = Some (Return tt st2) ∧
    step call fuel SendComplete st2 = Some (Return tt st3) ∧
    bodies st3 = [[]] ∧ IOStream._write_buffer_size (_stream st3) = 0 ∧
    _recving st3 = true ∧ callbacks st3 = [] ∧
    step call fuel SendComplete st3 = Some (Return tt st3) ∧
    step call fuel (OnMessage qid m) st3 = Some (Return tt st4) ∧
    _stream st4 = _stream st3 ∧ _recving st4 = true ∧ callbacks st4 = [] ∧
    _fq st4 = [(qid, fresh (dom (deques st)))] ∧
    deque_of (fresh (dom (deques st))) st4 = [m].
Proof.
  intros Hmq Hfq Hrec Hcb Hs Hwb Hwz Hq Hmax.
  pose proof (len_nonneg m) as Hm0. pose proof (len_nonneg qid) as Hq0.
  set (q := fresh (dom (deques st))).
  set (st1 := Connection.mk (_stream st) (<[q := [[]]]> (<[q := []]> (deques st)))
                (<[qid := q]> (_mq st)) [(qid, q)] false [_recv_cb]).
  assert (Hon : on_message qid [] st = Return tt st1).
  { unfold on_message. change (len (@nil byte)) with 0.
    rewrite (proj2 (Z.leb_le _ _)) by lia.
    unfold mq_getitem. rewrite Hmq. fold q. unfold deque_of, with_deque. simpl.
    rewrite lookup_insert_eq. simpl. rewrite lookup_insert_eq. simpl.
    rewrite Hrec, Hfq, Hcb. done. }
  set (st0 := Connection.mk (_stream st) (<[q := [[]]]> (<[q := []]> (deques st)))
                (<[qid := q]> (_mq st)) [(qid, q)] false []).
  destruct (recv_spec st0 [] qid q [] [] fuel)
    as (hb & s' & Hp & Hr & Hb & Hz & Hsock); try done.
  { simpl. by rewrite lookup_insert_eq. }
  destruct (unpack_pack (message_header (len qid) (len (@nil byte))))
    as (hb' & Hp' & Hl & _).
  { apply message_header_bound; change (len (@nil byte)) with 0; lia. }
  rewrite Hp in Hp'. injection Hp' as <-.
  simpl in Hb, Hr, Hz, Hsock. rewrite Hwb in Hb. rewrite Hwz in Hz. simpl in Hb.
  change (len (@nil byte)) with 0 in Hz.
  replace (0 + (4 + len qid + 0)) with (len hb + len qid + 0) in Hz by lia.
  destruct (socket s') as [fd|] eqn:Hfd; [|congruence].
  set (rest := if len qid =? 0
               then [(qid, None); ([], Some (on_send_complete_cb qid q))]
               else [([], Some (on_send_complete_cb qid q))]).
  set (s3 := IOStream.set_write_buffer_size 0 (IOStream.set_write_buffer rest s')).
  set (st3 := Connection.mk s3 (<[q := []]> (<[q := [[]]]> (<[q := []]> (deques st))))
                (<[qid := q]> (_mq st)) [] true []).
  assert (Hsc : step call fuel SendComplete
                  (Connection.mk s' (<[q := []]> (<[q := [[]]]> (<[q := []]> (deques st))))
                     (<[qid := q]> (_mq st)) [] true [])
                = Some (Return tt st3)).
  { simpl. unfold send_complete. cbn [_stream]. rewrite Hfd, Hb, Hz.
    rewrite drain_empty_body by lia. done. }
  assert (Hst : step call fuel SendComplete st3 = Some (Return tt st3)).
  { simpl. unfold send_complete. cbn [_stream st3]. unfold s3 at 1. simpl.
    rewrite Hfd. unfold s3, rest. simpl. destruct (len qid =? 0); done. }
  eexists st1, _, st3, _. split; [by rewrite <- Hon|].
  split; [exact Hr|]. split; [exact Hsc|].
  split; [unfold bodies, st3, s3, rest; simpl; by destruct (len qid =? 0)|].
  split; [done|]. split; [done|]. split; [done|]. split; [exact Hst|].
  simpl. unfold on_message. cbn [_stream st3]. unfold s3 at 1. simpl.
  assert (Hmx : max_buffer_size s' = max_buffer_size (_stream st)).
  { destruct (write_frame_open (_stream st) hb qid [] (on_send_complete_cb qid q) Hs)
      as (s'' & Hw & _ & _ & _ & Hmx).
    unfold _recv in Hr. simpl in Hr. unfold deque_of in Hr. simpl in Hr.
    rewrite lookup_insert_eq in Hr. simpl in Hr.
    change (Z.lor (Z.lor (OP_MESSAGE ≪ 29) (len qid ≪ 20)) (len (@nil byte)))
      with (message_header (len qid) (len (@nil byte))) in Hr.
    rewrite Hp in Hr. unfold with_deque, with_recving, with_fq in Hr. simpl in Hr.
    rewrite Hw in Hr. unfold with_stream in Hr. simpl in Hr.
    injection Hr as <-. done. }
  rewrite Hmx. rewrite (proj2 (Z.leb_le _ _)) by done.
  unfold mq_getitem. simpl. rewrite lookup_insert_eq.
  unfold deque_of, with_deque. simpl. rewrite !lookup_insert_eq. simpl.
  split; [reflexivity|]. simpl. split_and!; try done.
  by rewrite lookup_insert_eq.
Qed.

End Egress.

End EgressFacts.

(** ** The properties above at concrete inputs *)

Module Instances.

Import Examples.

Section Codec.
Import Connection Wire WireFacts.

Lemma send_header_roundtrip_witness :
  0 ≤ 2 ≤ 255 ∧ 0 ≤ 5 < 2 ^ 20 ∧
  ∃ hb, pack_I (send_header true 2 5) = Some hb ∧ len hb = 4 ∧
        ∃ h, unpack_I hb = Some h ∧
             op_of h = OP_SEND ∧
             flag_of h = (if true then 1 else 0) ∧
             qid_length_of h = 2 ∧ message_length_of h = 5.
Proof.
  assert (H1 : 0 ≤ 2 ≤ 255) by lia. assert (H2 : 0 ≤ 5 < 2 ^ 20) by lia.
  split; [exact H1|]. split; [exact H2|].
  exact (send_header_roundtrip true 2 5 H1 H2).
Defined.

Lemma subscribe_header_roundtrip_witness :
  0 ≤ 1 ≤ 1 ∧ 0 ≤ 6 ≤ 255 ∧
  ∃ hb, pack_I (subscribe_header 1 6) = Some hb ∧ len hb = 4 ∧
        ∃ h, unpack_I hb = Some h ∧
             op_of h = OP_SUBSCRIBE ∧ flag_of h = 1 ∧
             qid_length_of h = 6 ∧ message_length_of h = 0.
Proof.
  assert (H1 : 0 ≤ 1 ≤ 1) by lia. assert (H2 : 0 ≤ 6 ≤ 255) by lia.
  split; [exact H1|]. split; [exact H2|].
  exact (subscribe_header_roundtrip 1 6 H1 H2).
Defined.

Lemma message_header_roundtrip_witness :
  0 ≤ 1 ≤ 255 ∧ 0 ≤ 2 < 2 ^ 20 ∧
  ∃ hb, pack_I (message_header 1 2) = Some hb ∧ len hb = 4 ∧
        ∃ h, unpack_I hb = Some h ∧
             op_of h = OP_MESSAGE ∧
             qid_length_of h = 1 ∧ message_length_of h = 2.
Proof.
  assert (H1 : 0 ≤ 1 ≤ 255) by lia. assert (H2 : 0 ≤ 2 < 2 ^ 20) by lia.
  split; [exact H1|]. split; [exact H2|].
  exact (message_header_roundtrip 1 2 H1 H2).
Defined.

Lemma send_header_length_wraps_witness :
  0 ≤ 2 ^ 20 + 5 ∧
  message_length_of (send_header false 6 (2 ^ 20 + 5)) = (2 ^ 20 + 5) `mod` 2 ^ 20 ∧
  (2 ^ 20 ≤ 2 ^ 20 + 5 → message_length_of (send_header false 6 (2 ^ 20 + 5)) < 2 ^ 20 + 5).
Proof.
  assert (H1 : 0 ≤ 2 ^ 20 + 5) by lia.
  split; [exact H1|]. exact (send_header_length_wraps false 6 (2 ^ 20 + 5) H1).
Defined.

End Codec.

Section RemoteClient.
Import IOStream Wire SocketClient SocketClientFacts.

Lemma send_writes_frame_witness :
  _stream remote = Some remote_stream ∧ socket remote_stream ≠ None ∧
  _sending remote = [] ∧ len (b "/q") ≤ 255 ∧
  len (b "hi") ≤ max_buffer_size remote_stream ∧ len (b "hi") < 2 ^ 20 ∧
  ∃ hb s' h,
    send hushed 1 (b "/q") (b "hi") true remote
    = Some (Return tt (SocketClient.mk (Some s') (connected remote) [] (callbacks remote))) ∧
    _write_buffer s' = _write_buffer remote_stream
                       ++ [(hb, None); (b "/q", None); (b "hi", None)] ∧
    _write_buffer_size s' = _write_buffer_size remote_stream
                            + (4 + len (b "/q") + len (b "hi")) ∧
    unpack_I hb = Some h ∧
    op_of h = OP_SEND ∧ flag_of h = (if true then 1 else 0) ∧
    qid_length_of h = len (b "/q") ∧ message_length_of h = len (b "hi").
Proof.
  assert (H1 : _stream remote = Some remote_stream) by reflexivity.
  assert (H2 : socket remote_stream ≠ None) by done.
  assert (H3 : _sending remote = []) by reflexivity.
  assert (H4 : len (b "/q") ≤ 255) by (vm_compute; congruence).
  assert (H5 : len (b "hi") ≤ max_buffer_size remote_stream) by (vm_compute; congruence).
  assert (H6 : len (b "hi") < 2 ^ 20) by reflexivity.
  split; [exact H1|]. split; [exact H2|]. split; [exact H3|]. split; [exact H4|].
  split; [exact H5|]. split; [exact H6|].
  exact (send_writes_frame hushed remote remote_stream (b "/q") (b "hi") true 1
           H1 H2 H3 H4 H5 H6).
Defined.

Lemma len_long_message : len long_message = 2 ^ 20.
Proof. unfold len, long_message. rewrite length_replicate. lia. Qed.

Lemma send_long_message_misframed_witness :
  _stream remote = Some remote_stream ∧ socket remote_stream ≠ None ∧
  _sending remote = [] ∧ len (b "/q") ≤ 255 ∧
  len long_message ≤ max_buffer_size remote_stream ∧
  max_buffer_size remote_stream < 2 ^ 32 ∧ 2 ^ 20 ≤ len long_message ∧
  ∃ hb s' h,
    send hushed 1 (b "/q") long_message true remote
    = Some (Return tt (SocketClient.mk (Some s') (connected remote) [] (callbacks remote))) ∧
    _write_buffer s' = _write_buffer remote_stream
                       ++ [(hb, None); (b "/q", None); (long_message, None)] ∧
    unpack_I hb = Some h ∧
    message_length_of h = len long_message `mod` 2 ^ 20 ∧
    message_length_of h < len long_message.
Proof.
  assert (H1 : _stream remote = Some remote_stream) by reflexivity.
  assert (H2 : socket remote_stream ≠ None) by done.
  assert (H3 : _sending remote = []) by reflexivity.
  assert (H4 : len (b "/q") ≤ 255) by (vm_compute; congruence).
  assert (H5 : len long_message ≤ max_buffer_size remote_stream)
    by (rewrite len_long_message; vm_compute; congruence).
  assert (H6 : max_buffer_size remote_stream < 2 ^ 32) by reflexivity.
  assert (H7 : 2 ^ 20 ≤ len long_message) by (rewrite len_long_message; lia).
  split; [exact H1|]. split; [exact H2|]. split; [exact H3|]. split; [exact H4|].
  split; [exact H5|]. split; [exact H6|]. split; [exact H7|].
  exact (send_long_message_misframed hushed remote remote_stream (b "/q") long_message
           true 1 H1 H2 H3 H4 H5 H6 H7).
Defined.

Lemma subscribe_writes_header_witness :
  _stream remote = Some remote_stream ∧ socket remote_stream ≠ None ∧
  len (b "^/room") ≤ 255 ∧
  ∃ hb s' h,
    subscribe (Exchange.Pattern (b "^/room")) remote = Return tt (with_stream s' remote) ∧
    _write_buffer s' = _write_buffer remote_stream ++ [(hb, None); (b "^/room", None)] ∧
    unpack_I hb = Some h ∧
    op_of h = OP_SUBSCRIBE ∧ flag_of h = 1 ∧
    qid_length_of h = len (b "^/room") ∧ message_length_of h = 0.
Proof.
  assert (H1 : _stream remote = Some remote_stream) by reflexivity.
  assert (H2 : socket remote_stream ≠ None) by done.
  assert (H3 : len (b "^/room") ≤ 255) by (vm_compute; congruence).
  split; [exact H1|]. split; [exact H2|]. split; [exact H3|].
  exact (subscribe_writes_header remote remote_stream (Exchange.Pattern (b "^/room"))
           H1 H2 H3).
Defined.

End RemoteClient.

Section Streams.
Import IOStream IOStreamFacts StreamWriteFacts StreamReadFacts.

Lemma handle_write_sent_witness :
  socket one_write ≠ None ∧ _write_buffer one_write = (b "abc", Some 0%nat) :: [] ∧
  _write_buffer_size one_write ≠ 0 ∧ 0 ≤ 1 ≤ len (b "abc") ∧
  ∃ s',
    _handle_write quiet 4 (Sent 1) one_write
    = (if 1 <? len (b "abc") then Some (Return tt s')
       else match Some 0%nat with
            | Some k => _run_callback quiet 4 k [] s'
            | None => Some (Return tt s')
            end) ∧
    _write_buffer s' = (if 1 <? len (b "abc")
                        then (drop (Z.to_nat 1) (b "abc"), Some 0%nat) :: [] else []) ∧
    queued s' = drop (Z.to_nat 1) (queued one_write) ∧
    _write_buffer_size s' = _write_buffer_size one_write - 1 ∧
    socket s' = socket one_write ∧
    _read_buffer s' = _read_buffer one_write ∧
    _read_callback s' = _read_callback one_write.
Proof.
  assert (H1 : socket one_write ≠ None) by done.
  assert (H2 : _write_buffer one_write = (b "abc", Some 0%nat) :: []) by reflexivity.
  assert (H3 : _write_buffer_size one_write ≠ 0) by done.
  assert (H4 : 0 ≤ 1 ≤ len (b "abc")) by (vm_compute; split; congruence).
  split; [exact H1|]. split; [exact H2|]. split; [exact H3|]. split; [exact H4|].
  exact (handle_write_sent quiet one_write (b "abc") (Some 0%nat) [] 1 4 H1 H2 H3 H4).
Defined.

Lemma close_closes_witness :
  keeps_closed quiet ∧
  ∃ r, close quiet 3 one_write = Some r ∧
       socket (state_of r) = None ∧
       close quiet 1 (state_of r) = Some (Return tt (state_of r)).
Proof.
  assert (H1 : keeps_closed quiet) by (intros c args s Hs; exact Hs).
  split; [exact H1|]. exact (close_closes quiet one_write 0 0 H1).
Defined.

Lemma read_bytes_defers_witness :
  _read_callback (IOStream.init (cb:=nat) 7) = None ∧
  _read_buffer_size (IOStream.init (cb:=nat) 7) < 4 ∧
  socket (IOStream.init (cb:=nat) 7) ≠ None ∧
  ∃ s',
    read_bytes quiet 4 0%nat (IOStream.init 7) = Return tt s' ∧
    _read_bytes s' = Some 4 ∧ _read_callback s' = Some 0%nat ∧
    Z.land (_state s') READ = READ ∧
    _read_buffer s' = _read_buffer (IOStream.init (cb:=nat) 7) ∧
    _read_buffer_size s' = _read_buffer_size (IOStream.init (cb:=nat) 7) ∧
    _write_buffer s' = _write_buffer (IOStream.init 7) ∧
    socket s' = socket (IOStream.init (cb:=nat) 7).
Proof.
  assert (H1 : _read_callback (IOStream.init (cb:=nat) 7) = None) by reflexivity.
  assert (H2 : _read_buffer_size (IOStream.init (cb:=nat) 7) < 4) by reflexivity.
  assert (H3 : socket (IOStream.init (cb:=nat) 7) ≠ None) by done.
  split; [exact H1|]. split; [exact H2|]. split; [exact H3|].
  exact (read_bytes_defers quiet (IOStream.init 7) 4 0%nat H1 H2 H3).
Defined.

Lemma handle_read_completes_witness :
  socket waiting_he ≠ None ∧ _read_bytes waiting_he = Some 4 ∧
  _read_callback waiting_he = Some 0%nat ∧ 1 ≤ 4 ∧
  _read_buffer_size waiting_he = len (buffered waiting_he) ∧ b "llo w" ≠ [] ∧
  _read_buffer_size waiting_he + len (b "llo w") < max_buffer_size waiting_he ∧
  4 ≤ _read_buffer_size waiting_he + len (b "llo w") ∧
  ∃ s',
    _handle_read quiet 4 (Received (b "llo w")) waiting_he
    = Handled <$> _run_callback quiet 4 0%nat
                    [take (Z.to_nat 4) (buffered waiting_he ++ b "llo w")] s' ∧
    buffered s' = drop (Z.to_nat 4) (buffered waiting_he ++ b "llo w") ∧
    _read_buffer_size s' = len (buffered s') ∧
    _read_bytes s' = None ∧ _read_callback s' = None ∧
    socket s' = socket waiting_he ∧ _write_buffer s' = _write_buffer waiting_he.
Proof.
  assert (H1 : socket waiting_he ≠ None) by done.
  assert (H2 : _read_bytes waiting_he = Some 4) by reflexivity.
  assert (H3 : _read_callback waiting_he = Some 0%nat) by reflexivity.
  assert (H4 : 1 ≤ 4) by lia.
  assert (H5 : _read_buffer_size waiting_he = len (buffered waiting_he)) by reflexivity.
  assert (H6 : b "llo w" ≠ []) by done.
  assert (H7 : _read_buffer_size waiting_he + len (b "llo w") < max_buffer_size waiting_he)
    by reflexivity.
  assert (H8 : 4 ≤ _read_buffer_size waiting_he + len (b "llo w"))
    by (vm_compute; congruence).
  split; [exact H1|]. split; [exact H2|]. split; [exact H3|]. split; [exact H4|].
  split; [exact H5|]. split; [exact H6|]. split; [exact H7|]. split; [exact H8|].
  exact (handle_read_completes quiet waiting_he 4 0%nat (b "llo w") 4
           H1 H2 H3 H4 H5 H6 H7 H8).
Defined.

Lemma handle_read_buffers_witness :
  socket waiting ≠ None ∧ _read_bytes waiting = Some 4 ∧ b "he" ≠ [] ∧
  _read_buffer_size waiting + len (b "he") < max_buffer_size waiting ∧
  _read_buffer_size waiting + len (b "he") < 4 ∧
  ∃ s',
    _handle_read quiet 4 (Received (b "he")) waiting = Some (Handled (Return tt s')) ∧
    buffered s' = buffered waiting ++ b "he" ∧
    _read_buffer_size s' = _read_buffer_size waiting + len (b "he") ∧
    s' = set_read_buffer_size (_read_buffer_size s')
           (set_read_buffer (_read_buffer s') waiting).
Proof.
  assert (H1 : socket waiting ≠ None) by done.
  assert (H2 : _read_bytes waiting = Some 4) by reflexivity.
  assert (H3 : b "he" ≠ []) by done.
  assert (H4 : _read_buffer_size waiting + len (b "he") < max_buffer_size waiting)
    by reflexivity.
  assert (H5 : _read_buffer_size waiting + len (b "he") < 4) by reflexivity.
  split; [exact H1|]. split; [exact H2|]. split; [exact H3|]. split; [exact H4|].
  split; [exact H5|].
  exact (handle_read_buffers quiet waiting 4 (b "he") 4 H1 H2 H3 H4 H5).
Defined.

Lemma handle_read_closes_witness :
  keeps_closed quiet ∧ socket waiting ≠ None ∧
  _read_buffer_size waiting < max_buffer_size waiting ∧
  (Received [] = Received []
   ∨ (∃ errno, Received [] = RecvError errno ∧ errno ≠ EAGAIN)
   ∨ (∃ chunk, Received [] = Received chunk ∧
               max_buffer_size waiting ≤ _read_buffer_size waiting + len chunk)) ∧
  ∃ r, _handle_read quiet 3 (Received []) waiting = Some (Handled r) ∧
       socket (state_of r) = None.
Proof.
  assert (H1 : keeps_closed quiet) by (intros c args s Hs; exact Hs).
  assert (H2 : socket waiting ≠ None) by done.
  assert (H3 : _read_buffer_size waiting < max_buffer_size waiting) by reflexivity.
  assert (H4 : Received [] = Received []
   ∨ (∃ errno, Received [] = RecvError errno ∧ errno ≠ EAGAIN)
   ∨ (∃ chunk, Received [] = Received chunk ∧
               max_buffer_size waiting ≤ _read_buffer_size waiting + len chunk))
    by (left; reflexivity).
  split; [exact H1|]. split; [exact H2|]. split; [exact H3|]. split; [exact H4|].
  exact (handle_read_closes quiet waiting (Received []) 0 H1 H2 H3 H4).
Defined.

Lemma handle_events_mask_witness :
  _handle_events quiet 4 READ (Received (b "he")) (Sent 0) waiting
  = Some (Handled (Return tt waiting_he)) ∧
  socket waiting_he ≠ None ∧ Z.land READ ERROR = 0 ∧
  _state waiting_he = wanted_state waiting_he.
Proof.
  assert (H1 : _handle_events quiet 4 READ (Received (b "he")) (Sent 0) waiting
               = Some (Handled (Return tt waiting_he))) by compute_done.
  assert (H2 : socket waiting_he ≠ None) by done.
  assert (H3 : Z.land READ ERROR = 0) by reflexivity.
  split; [exact H1|]. split; [exact H2|]. split; [exact H3|].
  exact (handle_events_mask quiet waiting waiting_he READ (Received (b "he")) (Sent 0) 4
           H1 H2 H3).
Defined.

End Streams.

Section Tables.
Import Exchange ExchangeFacts RoutingFacts.

Lemma two_subscriptions_consistent : consistent two_subscriptions.
Proof.
  destruct (consistent_run [Connect A1; Subscribe root A1; Subscribe queue A1]
              Exchange.init consistent_init) as (ex & Hrun & Hc); [compute_done|].
  assert (Hex : run [Connect A1; Subscribe root A1; Subscribe queue A1] Exchange.init
                = Some two_subscriptions) by compute_done.
  congruence.
Qed.


Lemma unicast_picks_one_recipient_witness :
  recipients prefix_match (b "/queue") two_listeners ≠ ∅ ∧
  ∃ c, c ∈ recipients prefix_match (b "/queue") two_listeners ∧
       dispatch prefix_match no_tic 5 (b "/queue") (b "hi") false two_listeners tt
       = ([(c, b "/queue", b "hi")], no_tic c (b "/queue") (b "hi") tt).
Proof.
  assert (H1 : recipients prefix_match (b "/queue") two_listeners ≠ ∅) by compute_done.
  split; [exact H1|].
  exact (unicast_picks_one_recipient prefix_match no_tic 5 (b "/queue") (b "hi")
           two_listeners tt H1).
Defined.

Lemma unsubscribe_missing_raises_witness :
  is_Some (_clients one_subscription !! A1) ∧ ¬ in_by_qid one_subscription queue A1 ∧
  ∃ ex', unsubscribe queue A1 one_subscription = Raise KeyError ex' ∧
         _clients ex' = _clients one_subscription ∧
         is_Some (_subscribers ex' !! queue) ∧
         ∀ (q : bytes), recipients prefix_match q ex' = recipients prefix_match q one_subscription.
Proof.
  assert (H1 : is_Some (_clients one_subscription !! A1)) by compute_done.
  assert (H2 : ¬ in_by_qid one_subscription queue A1).
  { rewrite in_by_qid_default. compute_done. }
  split; [exact H1|]. split; [exact H2|].
  exact (unsubscribe_missing_raises prefix_match queue A1 one_subscription H1 H2).
Defined.

Lemma unsubscribed_client_not_reached_witness :
  unsubscribe root A1 one_subscription
  = Return tt (Exchange.mk {[A1 := []]} {[root := ∅]}) ∧
  (∀ k, in_by_qid one_subscription k A1 →
        key_matches prefix_match k (b "/") = true → k = root) ∧
  (A1 ∉ recipients prefix_match (b "/") (Exchange.mk {[A1 := []]} {[root := ∅]})) ∧
  ∀ c', c' ≠ A1 →
        (c' ∈ recipients prefix_match (b "/") (Exchange.mk {[A1 := []]} {[root := ∅]})
         ↔ c' ∈ recipients prefix_match (b "/") one_subscription).
Proof.
  assert (H1 : unsubscribe root A1 one_subscription
               = Return tt (Exchange.mk {[A1 := []]} {[root := ∅]})) by compute_done.
  assert (H2 : ∀ k, in_by_qid one_subscription k A1 →
                    key_matches prefix_match k (b "/") = true → k = root).
  { intros k (s & Hk & _) _. simpl in Hk.
    by apply lookup_singleton_Some in Hk as [<- _]. }
  split; [exact H1|]. split; [exact H2|].
  exact (unsubscribed_client_not_reached prefix_match root A1 one_subscription _
           (b "/") H1 H2).
Defined.

Lemma disconnect_drops_even_positions_witness :
  consistent two_subscriptions ∧ _clients two_subscriptions !! A1 = Some [root; queue] ∧
  ∃ ex',
    disconnect A1 two_subscriptions = Some (Return tt ex') ∧
    _clients ex' = delete A1 (_clients two_subscriptions) ∧
    ∀ k c', in_by_qid ex' k c'
            ↔ in_by_qid two_subscriptions k c' ∧ ¬ (c' = A1 ∧ k ∈ evens [root; queue]).
Proof.
  assert (H1 : consistent two_subscriptions) by exact two_subscriptions_consistent.
  assert (H2 : _clients two_subscriptions !! A1 = Some [root; queue]) by compute_done.
  split; [exact H1|]. split; [exact H2|].
  exact (disconnect_drops_even_positions A1 two_subscriptions [root; queue] H1 H2).
Defined.

End Tables.

Section Participants.
Import Exchange Client ClientLifecycle.


Lemma connect_disconnect_restores_witness :
  (A1 ∉ connected one_exchange) ∧ Client._exchange one_exchange !! A1 = None ∧
  exchanges one_exchange !! 0%nat = Some Exchange.init ∧
  _clients (Exchange.init (pattern:=bytes)) !! A1 = None ∧
  ∃ w1, Client.connect A1 0%nat one_exchange = Return tt w1 ∧
        A1 ∈ connected w1 ∧
        Client.disconnect A1 w1 = Some (Return tt one_exchange).
Proof.
  assert (H1 : A1 ∉ connected one_exchange) by compute_done.
  assert (H2 : Client._exchange one_exchange !! A1 = None) by compute_done.
  assert (H3 : exchanges one_exchange !! 0%nat = Some Exchange.init) by compute_done.
  assert (H4 : _clients (Exchange.init (pattern:=bytes)) !! A1 = None) by compute_done.
  split; [exact H1|]. split; [exact H2|]. split; [exact H3|]. split; [exact H4|].
  exact (connect_disconnect_restores A1 0%nat one_exchange Exchange.init H1 H2 H3 H4).
Defined.

End Participants.

Section Scheduler.
Import Connection Wire EgressFacts.

Lemma backlog_is_served_first_witness :
  callbacks backlog = _recv_cb :: [] ∧
  _fq backlog = [] ++ [(q, 0%nat)] ∧ deques backlog !! 0%nat = Some ([] ++ [m1; m2]) ∧
  IOStream.socket (_stream backlog) ≠ None ∧
  Forall (fun e => e.2 = None) (IOStream._write_buffer (_stream backlog)) ∧
  IOStream._write_buffer_size (_stream backlog)
  = len (IOStream.queued (_stream backlog)) ∧
  len q ≤ 255 ∧ 0 < len m2 < 2 ^ 20 ∧
  ∃ hb st1 st2,
    step silent 1 RunCallback backlog = Some (Return tt st1) ∧
    IOStream._write_buffer (_stream st1)
    = IOStream._write_buffer (_stream backlog)
      ++ [(hb, None); (q, None); (m2, Some (on_send_complete_cb q 0%nat))] ∧
    step silent 1 SendComplete st1 = Some (Return tt st2) ∧
    IOStream._write_buffer (_stream st2) = [] ∧
    _fq st2 = _fq backlog ∧ deque_of 0%nat st2 = [] ++ [m1] ∧
    callbacks st2 = [] ++ [_recv_cb].
Proof.
  assert (H0 : callbacks backlog = _recv_cb :: []) by reflexivity.
  assert (H1 : _fq backlog = [] ++ [(q, 0%nat)]) by reflexivity.
  assert (H2 : deques backlog !! 0%nat = Some ([] ++ [m1; m2])) by compute_done.
  assert (H3 : IOStream.socket (_stream backlog) ≠ None) by done.
  assert (H4 : Forall (fun e : bytes * option closure => e.2 = None)
                 (IOStream._write_buffer (_stream backlog))) by constructor.
  assert (H5 : IOStream._write_buffer_size (_stream backlog)
               = len (IOStream.queued (_stream backlog))) by reflexivity.
  assert (H6 : len q ≤ 255) by (vm_compute; congruence).
  assert (H7 : 0 < len m2 < 2 ^ 20) by (split; reflexivity).
  split; [exact H0|]. split; [exact H1|]. split; [exact H2|]. split; [exact H3|].
  split; [exact H4|]. split; [exact H5|]. split; [exact H6|]. split; [exact H7|].
  exact (backlog_is_served_first silent backlog [] q 0%nat [] m1 m2 [] 1
           H0 H1 H2 H3 H4 H5 H6 H7).
Defined.

Lemma idle_connection_sends_and_settles_witness :
  _mq accepted !! q = None ∧ _fq accepted = [] ∧ _recving accepted = false ∧
  callbacks accepted = [] ∧ IOStream.socket (_stream accepted) ≠ None ∧
  Forall (fun e => e.2 = None) (IOStream._write_buffer (_stream accepted)) ∧
  IOStream._write_buffer_size (_stream accepted)
  = len (IOStream.queued (_stream accepted)) ∧
  len q ≤ 255 ∧ 0 < len m1 < 2 ^ 20 ∧
  len m1 ≤ IOStream.max_buffer_size (_stream accepted) ∧
  ∃ hb d st1 st2 st3,
    step silent 1 (OnMessage q m1) accepted = Some (Return tt st1) ∧
    callbacks st1 = [_recv_cb] ∧
    step silent 1 RunCallback st1 = Some (Return tt st2) ∧
    pack_I (message_header (len q) (len m1)) = Some hb ∧
    IOStream._write_buffer (_stream st2)
    = IOStream._write_buffer (_stream accepted)
      ++ [(hb, None); (q, None); (m1, Some (on_send_complete_cb q d))] ∧
    step silent 1 SendComplete st2 = Some (Return tt st3) ∧
    IOStream._write_buffer (_stream st3) = [] ∧
    IOStream._write_buffer_size (_stream st3) = 0 ∧
    _mq st3 = _mq accepted ∧ _fq st3 = [] ∧ _recving st3 = false ∧
    callbacks st3 = [].
Proof.
  assert (H1 : _mq accepted !! q = None) by compute_done.
  assert (H2 : _fq accepted = []) by reflexivity.
  assert (H3 : _recving accepted = false) by reflexivity.
  assert (H4 : callbacks accepted = []) by reflexivity.
  assert (H5 : IOStream.socket (_stream accepted) ≠ None) by done.
  assert (H6 : Forall (fun e : bytes * option closure => e.2 = None)
                 (IOStream._write_buffer (_stream accepted))) by constructor.
  assert (H7 : IOStream._write_buffer_size (_stream accepted)
               = len (IOStream.queued (_stream accepted))) by reflexivity.
  assert (H8 : len q ≤ 255) by (vm_compute; congruence).
  assert (H9 : 0 < len m1 < 2 ^ 20) by (split; reflexivity).
  assert (H10 : len m1 ≤ IOStream.max_buffer_size (_stream accepted))
    by (vm_compute; congruence).
  split; [exact H1|]. split; [exact H2|]. split; [exact H3|]. split; [exact H4|].
  split; [exact H5|]. split; [exact H6|]. split; [exact H7|]. split; [exact H8|].
  split; [exact H9|]. split; [exact H10|].
  exact (idle_connection_sends_and_settles silent accepted q m1 1
           H1 H2 H3 H4 H5 H6 H7 H8 H9 H10).
Defined.

Lemma empty_message_stalls_egress_witness :
  _mq accepted !! q = None ∧ _fq accepted = [] ∧ _recving accepted = false ∧
  callbacks accepted = [] ∧ IOStream.socket (_stream accepted) ≠ None ∧
  IOStream._write_buffer (_stream accepted) = [] ∧
  IOStream._write_buffer_size (_stream accepted) = 0 ∧
  len q ≤ 255 ∧ len m1 ≤ IOStream.max_buffer_size (_stream accepted) ∧
  ∃ st1 st2 st3 st4,
    step silent 1 (OnMessage q []) accepted = Some (Return tt st1) ∧
    step silent 1 RunCallback st1 = Some (Return tt st2) ∧
    step silent 1 SendComplete st2 = Some (Return tt st3) ∧
    bodies st3 = [[]] ∧ IOStream._write_buffer_size (_stream st3) = 0 ∧
    _recving st3 = true ∧ callbacks st3 = [] ∧
    step silent 1 SendComplete st3 = Some (Return tt st3) ∧
    step silent 1 (OnMessage q m1) st3 = Some (Return tt st4) ∧
    _stream st4 = _stream st3 ∧ _recving st4 = true ∧ callbacks st4 = [] ∧
    _fq st4 = [(q, fresh (dom (deques accepted)))] ∧
    deque_of (fresh (dom (deques accepted))) st4 = [m1].
Proof.
  assert (H1 : _mq accepted !! q = None) by compute_done.
  assert (H2 : _fq accepted = []) by reflexivity.
  assert (H3 : _recving accepted = false) by reflexivity.
  assert (H4 : callbacks accepted = []) by reflexivity.
  assert (H5 : IOStream.socket (_stream accepted) ≠ None) by done.
  assert (H6 : IOStream._write_buffer (_stream accepted) = []) by reflexivity.
  assert (H7 : IOStream._write_buffer_size (_stream accepted) = 0) by reflexivity.
  assert (H8 : len q ≤ 255) by (vm_compute; congruence).
  assert (H9 : len m1 ≤ IOStream.max_buffer_size (_stream accepted))
    by (vm_compute; congruence).
  split; [exact H1|]. split; [exact H2|]. split; [exact H3|]. split; [exact H4|].
  split; [exact H5|]. split; [exact H6|]. split; [exact H7|]. split; [exact H8|].
  split; [exact H9|].
  exact (empty_message_stalls_egress silent accepted q m1 1
           H1 H2 H3 H4 H5 H6 H7 H8 H9).
Defined.

End Scheduler.
End Instances.
